(** * telegram_bot.py: access policy, command handlers and the transcription
      pipeline of [ChatGPT3TelegramBot]

    A shallow embedding of [src/telegram_bot.py].  The handlers are
    coroutines that talk to three collaborators (the Telegram transport, the
    OpenAI helper, pydub) and to the local file system.  They are embedded in
    a state-and-exception monad: the state carries the trace of every call the
    handler makes and the set of paths on local storage; the answers of the
    collaborators, and of the operating system to a removal, come from a
    [world], over which every theorem quantifies.

    Modelled: [is_group_chat], [is_user_in_group], [is_allowed],
    [send_disallowed_message], [reset], [image], [transcribe], [prompt].
    [help], [error_handler] and [run] make no decision and are left out. *)

From Stdlib Require Import ZArith Ascii Lia.
From stdpp Require Import base tactics option list strings pretty gmap.

Open Scope string_scope.
Open Scope list_scope.

(** ** Python [str] operations used by the bot

    Python strings are modelled as [string]; a character is a code point
    below 256. *)
Module PyStr.

(** [s.startswith(p)] *)
Fixpoint startswith (p s : string) : bool :=
  match p, s with
  | EmptyString, _ => true
  | String a p', String b s' => if Ascii.eqb a b then startswith p' s' else false
  | String _ _, EmptyString => false
  end.

(** [s[n:]] *)
Fixpoint drop (n : nat) (s : string) : string :=
  match n, s with
  | O, _ => s
  | S n', String _ s' => drop n' s'
  | S _, EmptyString => EmptyString
  end.

(** The left-to-right scan of [str.replace] for a non-empty [old]: [skip]
    counts the characters of a matched occurrence still to be passed over. *)
Fixpoint replace_scan (old new : string) (skip : nat) (s : string) : string :=
  match s with
  | EmptyString => EmptyString
  | String c s' =>
      match skip with
      | S k => replace_scan old new k s'
      | O =>
          if startswith old s
          then new +:+ replace_scan old new (String.length old - 1) s'
          else String c (replace_scan old new 0 s')
      end
  end.

(** With an empty [old], Python puts [new] before every character and at
    the end. *)
Fixpoint intersperse (new s : string) : string :=
  match s with
  | EmptyString => new
  | String c s' => new +:+ String c (intersperse new s')
  end.

(** [s.replace(old, new)] *)
Definition replace (old new s : string) : string :=
  match old with
  | EmptyString => intersperse new s
  | String _ _ => replace_scan old new 0 s
  end.

(** [str.isspace] on one code point below 256: TAB, LF, VT, FF, CR, the
    separators FS GS RS US, SPACE, NEL and NBSP. *)
Definition isspace (c : ascii) : bool :=
  let n := nat_of_ascii c in
  (((9 <=? n) && (n <=? 13)) || ((28 <=? n) && (n <=? 32))
   || (n =? 133) || (n =? 160))%nat.

(** [s.lstrip()] *)
Fixpoint lstrip (s : string) : string :=
  match s with
  | EmptyString => EmptyString
  | String c s' => if isspace c then lstrip s' else s
  end.

(** [s.rstrip()] *)
Fixpoint rstrip (s : string) : string :=
  match s with
  | EmptyString => EmptyString
  | String c s' =>
      match rstrip s' with
      | EmptyString => if isspace c then EmptyString else String c EmptyString
      | r => String c r
      end
  end.

(** [s.strip()] *)
Definition strip (s : string) : string := rstrip (lstrip s).

(** [s.split(sep)] for a one-character separator: the empty string splits
    into one empty field. *)
Fixpoint split (sep : ascii) (s : string) : list string :=
  match s with
  | EmptyString => [EmptyString]
  | String c s' =>
      if Ascii.eqb c sep then EmptyString :: split sep s'
      else match split sep s' with
           | [] => [String c EmptyString]
           | f :: fs => String c f :: fs
           end
  end.

(** [str(n)] for an [int] *)
Definition str (n : Z) : string := pretty n.

(** [all(c.isspace() for c in s)] *)
Fixpoint all_space (s : string) : bool :=
  match s with
  | EmptyString => true
  | String c s' => isspace c && all_space s'
  end.

End PyStr.

(** ** Data of an update, as the handlers read it *)

(** [update.message.from_user]: [id] and the [name] property. *)
Record User := { user_id : Z; user_name : string }.

(** [update.effective_chat]: [id] and [type]. *)
Record Chat := { chat_id : Z; chat_type : string }.

(** [update.message.voice] / [update.message.audio]. *)
Record Attachment := { file_id : string; file_unique_id : string }.

(** [update.message].  [voice] and [audio] are [None] when absent; an
    attachment object is truthy.  [text] is read by [image] and [prompt]
    only, whose filters deliver messages that carry text. *)
Record Message := {
  message_id : Z;
  from_user : User;
  text : string;
  voice : option Attachment;
  audio : option Attachment
}.

Record Update := { message : Message; effective_chat : Chat }.

(** [self.config]: the handlers read [allowed_user_ids] only. *)
Record Config := { allowed_user_ids : string }.

(** ** Effects *)

(** A raised exception with its [str(e)].  [except Exception] catches
    an [Exception]; a [BaseException] outside that class (a cancellation, a
    keyboard interrupt) passes through it. *)
Inductive exn :=
| Exception (msg : string)
| BaseException (msg : string).

Definition exn_str (e : exn) : string :=
  match e with Exception m | BaseException m => m end.

Definition is_Exception (e : exn) : bool :=
  match e with Exception _ => true | BaseException _ => false end.

Inductive result (A : Type) :=
| Ok (a : A)
| Raise (e : exn).
Arguments Ok {A} a.
Arguments Raise {A} e.

(** Every call a handler makes that is visible outside it, in the order
    of the source.  [IsAllowed] marks one evaluation of [is_allowed]. *)
Inductive event :=
| IsAllowed
| Logging (level msg : string)
| GetMember (chat : Z) (user : string)
| SendMessage (chat : Z) (text : string) (reply_to_message_id : option Z)
              (disable_web_page_preview : bool) (parse_mode : option string)
| SendChatAction (chat : Z) (action : string)
| SendPhoto (chat : Z) (reply_to_message_id : Z) (photo : string)
| GetFile (file_id : string)
| DownloadToDrive (file path : string)
| FromOgg (path : string)
| Export (segment path format : string)
| ResetChatHistory (chat : Z)
| GenerateImage (prompt : string)
| OpenAITranscribe (path : string)
| GetChatResponse (chat : Z) (query : string)
| OsRemove (path : string).

#[global] Instance event_eq_dec : EqDecision event.
Proof. solve_decision. Defined.

(** The collaborators.  [respond n c] is the answer to the call [c] made
    as the [n]-th collaborator call of the handler: a value (a status, a file
    handle, a text; ignored where the source ignores it) or an exception.
    [leaves_file n] says whether a file-writing call that raises as the
    [n]-th call has already created its file.  The operating system answers
    [os.remove] the same way: it removes the path, or raises an [OSError]
    (the path is a directory, permission is denied). *)
Record world := {
  respond : nat -> event -> result string;
  leaves_file : nat -> bool
}.

(** [clock]: calls answered by the world so far; [trace]: the events so
    far, oldest first; [fs]: the paths that exist on local storage (files
    and directories). *)
Record state := State {
  clock : nat;
  trace : list event;
  fs : gset string
}.

Definition init (files : gset string) : state := State 0 [] files.

(** The path a call writes, if it writes one. *)
Definition written_path (c : event) : option string :=
  match c with
  | DownloadToDrive _ p => Some p
  | Export _ p _ => Some p
  | _ => None
  end.

(** Local storage after the call [c] got the answer [r]: a writing call
    that returns has created its file; one that raises may have. *)
Definition fs_after (c : event) (r : result string) (left : bool)
    (files : gset string) : gset string :=
  match written_path c, r with
  | Some p, Ok _ => {[p]} ∪ files
  | Some p, Raise _ => if left then {[p]} ∪ files else files
  | None, _ => files
  end.

Definition M (A : Type) : Type := state -> result A * state.

Definition ret {A} (a : A) : M A := fun s => (Ok a, s).

Definition raise {A} (e : exn) : M A := fun s => (Raise e, s).

Definition bind {A B} (m : M A) (k : A -> M B) : M B :=
  fun s => match m s with
           | (Ok a, s') => k a s'
           | (Raise e, s') => (Raise e, s')
           end.

Notation "x <- m ;; k" := (bind m (fun x => k))
  (at level 100, m at next level, right associativity).
Notation "m ;; k" := (bind m (fun _ => k))
  (at level 100, right associativity).

(** A call that stays inside the process (logging, the marker). *)
Definition emit (c : event) : M unit :=
  fun s => (Ok tt, State (clock s) (trace s ++ [c]) (fs s)).

(** [try: body except Exception as e: handler e] *)
Definition try_except {A} (body : M A) (handler : exn -> M A) : M A :=
  fun s => match body s with
           | (Raise e, s') =>
               if is_Exception e then handler e s' else (Raise e, s')
           | done => done
           end.

(** [try: body finally: cleanup]: the cleanup runs on every exit of the
    body; an exception of the cleanup replaces the body's outcome. *)
Definition try_finally {A} (body : M A) (cleanup : M unit) : M A :=
  fun s => match body s with
           | (r, s') =>
               match cleanup s' with
               | (Ok _, s'') => (r, s'')
               | (Raise e, s'') => (Raise e, s'')
               end
           end.

(** [os.path.exists(p)] *)
Definition os_path_exists (p : string) : M bool :=
  fun s => (Ok (bool_decide (p ∈ fs s)), s).

Section Bot.

Variable w : world.
Variable config : Config.

(** A call to a collaborator: answered by the world, recorded in the
    trace, with its effect on local storage. *)
Definition call (c : event) : M string :=
  fun s =>
    let r := respond w (clock s) c in
    (r, State (S (clock s)) (trace s ++ [c])
              (fs_after c r (leaves_file w (clock s)) (fs s))).

(** [os.remove(p)]: when the operating system returns, the path is gone;
    when it raises, the path stays and the exception goes to the caller. *)
Definition os_remove (p : string) : M unit :=
  fun s =>
    match respond w (clock s) (OsRemove p) with
    | Ok _ =>
        (Ok tt, State (S (clock s)) (trace s ++ [OsRemove p]) (fs s ∖ {[p]}))
    | Raise e =>
        (Raise e, State (S (clock s)) (trace s ++ [OsRemove p]) (fs s))
    end.

Definition disallowed_message : string :=
  "Sorry, you are not allowed to use this bot. You can check out the source code at "
  +:+ "https://github.com/n3d1117/chatgpt-telegram-bot".

(** [context.bot.send_message(chat_id=.., text=.., ...)] *)
Definition send_message (chat : Z) (txt : string) (reply_to : option Z)
    (no_preview : bool) (parse_mode : option string) : M unit :=
  call (SendMessage chat txt reply_to no_preview parse_mode) ;; ret tt.

(** [send_disallowed_message] *)
Definition send_disallowed_message (update : Update) : M unit :=
  send_message (chat_id (effective_chat update)) disallowed_message None true None.

(** [is_group_chat] *)
Definition is_group_chat (update : Update) : bool :=
  bool_decide (chat_type (effective_chat update) ∈ ["group"; "supergroup"]).

Definition member_statuses : list string := ["administrator"; "member"; "creator"].

(** [is_user_in_group] *)
Definition is_user_in_group (update : Update) (user : string) : M bool :=
  status <- call (GetMember (chat_id (effective_chat update)) user) ;;
  ret (bool_decide (status ∈ member_statuses)).

(** The [for user in allowed_user_ids] loop of [is_allowed] and the log
    line after it: [true] is the [return True] inside the loop, [false]
    the fall-through to [return False]. *)
Fixpoint group_scan (update : Update) (ids : list string) : M bool :=
  match ids with
  | [] =>
      emit (Logging "info" ("Group chat messages from user "
                            +:+ user_name (from_user (message update))
                            +:+ " are not allowed")) ;;
      ret false
  | user :: rest =>
      member <- is_user_in_group update user ;;
      if member then
        emit (Logging "info" (user +:+ " is a member. Allowing group chat message...")) ;;
        ret true
      else group_scan update rest
  end.

(** [is_allowed] *)
Definition is_allowed (update : Update) : M bool :=
  emit IsAllowed ;;
  if String.eqb (allowed_user_ids config) "*" then ret true
  else
    let ids := PyStr.split ","%char (allowed_user_ids config) in
    if bool_decide (PyStr.str (user_id (from_user (message update))) ∈ ids) then ret true
    else if is_group_chat update then group_scan update ids
    else ret false.

(** The denial branch shared by the four guarded handlers: the warning
    with the handler's wording, then the disallowed message. *)
Definition deny (update : Update) (what : string) : M unit :=
  emit (Logging "warning" ("User " +:+ user_name (from_user (message update))
                           +:+ " is not allowed to " +:+ what)) ;;
  send_disallowed_message update.

(** [reset] *)
Definition reset (update : Update) : M unit :=
  allowed <- is_allowed update ;;
  if negb allowed then deny update "reset the conversation"
  else
    emit (Logging "info" ("Resetting the conversation for user "
                          +:+ user_name (from_user (message update)) +:+ "...")) ;;
    let chat := chat_id (effective_chat update) in
    call (ResetChatHistory chat) ;;
    send_message chat "Done!" None false None.

(** [update.message.text.replace('/image', '').strip()] *)
Definition image_query_of (txt : string) : string :=
  PyStr.strip (PyStr.replace "/image" "" txt).

(** [image] *)
Definition image (update : Update) : M unit :=
  allowed <- is_allowed update ;;
  if negb allowed then deny update "generate images"
  else
    emit (Logging "info" ("New image generation request received from user "
                          +:+ user_name (from_user (message update)))) ;;
    let chat := chat_id (effective_chat update) in
    let image_query := image_query_of (text (message update)) in
    if String.eqb image_query "" then
      send_message chat "Please provide a prompt!" None false None
    else
      call (SendChatAction chat "upload_photo") ;;
      try_except
        (image_url <- call (GenerateImage image_query) ;;
         call (SendPhoto chat (message_id (message update)) image_url) ;;
         ret tt)
        (fun e =>
           emit (Logging "exception" (exn_str e)) ;;
           send_message chat ("Failed to generate image: " +:+ exn_str e)
             (Some (message_id (message update))) false None).

(** Truth value of an optional attachment: [None] is false, an attachment
    object is true. *)
Definition truthy {A} (x : option A) : bool :=
  match x with Some _ => true | None => false end.

(** [x.file_unique_id] where [x] may be [None]. *)
Definition file_unique_id_of (x : option Attachment) : M string :=
  match x with
  | Some a => ret (file_unique_id a)
  | None => raise (Exception "'NoneType' object has no attribute 'file_unique_id'")
  end.

(** The [finally] block of [transcribe]: an exception of the first
    removal leaves the block before the second test. *)
Definition cleanup_files (filename_mp3 filename_ogg : string) : M unit :=
  mp3_exists <- os_path_exists filename_mp3 ;;
  (if mp3_exists then os_remove filename_mp3 else ret tt) ;;
  ogg_exists <- os_path_exists filename_ogg ;;
  (if ogg_exists then os_remove filename_ogg else ret tt).

(** The fetch (and, for a voice note, transcode) step inside the [try]. *)
Definition fetch_audio (update : Update) (filename_ogg filename_mp3 : string) : M unit :=
  match voice (message update) with
  | Some v =>
      audio_file <- call (GetFile (file_id v)) ;;
      call (DownloadToDrive audio_file filename_ogg) ;;
      ogg_audio <- call (FromOgg filename_ogg) ;;
      call (Export ogg_audio filename_mp3 "mp3") ;;
      ret tt
  | None =>
      match audio (message update) with
      | Some a =>
          audio_file <- call (GetFile (file_id a)) ;;
          call (DownloadToDrive audio_file filename_mp3) ;;
          ret tt
      | None => ret tt
      end
  end.

(** [transcribe] *)
Definition transcribe (update : Update) : M unit :=
  allowed <- is_allowed update ;;
  if negb allowed then deny update "transcribe audio messages"
  else
    let chat := chat_id (effective_chat update) in
    let mid := message_id (message update) in
    if negb (truthy (voice (message update)))
       && negb (truthy (audio (message update))) then
      send_message chat "Unsupported file type" (Some mid) false None
    else
      emit (Logging "info" ("New transcribe request received from user "
                            +:+ user_name (from_user (message update)))) ;;
      call (SendChatAction chat "typing") ;;
      filename <- (match voice (message update) with
                   | Some v => ret (file_unique_id v)
                   | None => file_unique_id_of (audio (message update))
                   end) ;;
      let filename_ogg := filename +:+ ".ogg" in
      let filename_mp3 := filename +:+ ".mp3" in
      try_finally
        (try_except
           (fetch_audio update filename_ogg filename_mp3 ;;
            transcript <- call (OpenAITranscribe filename_mp3) ;;
            send_message chat transcript (Some mid) false (Some "Markdown"))
           (fun e =>
              emit (Logging "exception" (exn_str e)) ;;
              send_message chat ("Failed to transcribe text: " +:+ exn_str e)
                (Some mid) false None))
        (cleanup_files filename_mp3 filename_ogg).

(** [prompt] *)
Definition prompt (update : Update) : M unit :=
  allowed <- is_allowed update ;;
  if negb allowed then deny update "use the bot"
  else
    emit (Logging "info" ("New message received from user "
                          +:+ user_name (from_user (message update)))) ;;
    let chat := chat_id (effective_chat update) in
    call (SendChatAction chat "typing") ;;
    response <- call (GetChatResponse chat (text (message update))) ;;
    send_message chat response (Some (message_id (message update))) false (Some "Markdown").

End Bot.

(** The four handlers that [run] registers behind the access policy. *)
Inductive guarded := HReset | HImage | HTranscribe | HPrompt.

Definition handle (h : guarded) (w : world) (config : Config) (update : Update) : M unit :=
  match h with
  | HReset => reset w config update
  | HImage => image w config update
  | HTranscribe => transcribe w config update
  | HPrompt => prompt w config update
  end.

(** ** Observations on traces and states *)

(** What an evaluation of the access policy may do: its marker, log lines
    and group-membership queries. *)
Definition policy_event (c : event) : Prop :=
  match c with
  | IsAllowed | Logging _ _ | GetMember _ _ => True
  | _ => False
  end.

(** Calls to the OpenAI helper. *)
Definition backend_call (c : event) : bool :=
  match c with
  | ResetChatHistory _ | GenerateImage _ | OpenAITranscribe _
  | GetChatResponse _ _ => true
  | _ => false
  end.

(** Messages, photos and presence indicators sent to the conversation. *)
Definition outbound (c : event) : bool :=
  match c with
  | SendMessage _ _ _ _ _ | SendChatAction _ _ | SendPhoto _ _ _ => true
  | _ => false
  end.

(** An event that, if it is an image-generation call, carries the prompt [q]. *)
Definition generates_only (q : string) (c : event) : Prop :=
  forall p, c = GenerateImage p -> p = q.

(** [s'] has the trace of [s] followed by events that all satisfy [P]. *)
Definition extends_by (P : event -> Prop) (s s' : state) : Prop :=
  exists evs, trace s' = trace s ++ evs /\ Forall P evs.

(** [s'] has no file that [s] lacks, except possibly those of [X]. *)
Definition fs_within (X : gset string) (s s' : state) : Prop :=
  fs s' ⊆ fs s ∪ X.

(** [s'] has no file that [s] lacks, and no path written since [s] exists
    in [s']. *)
Definition no_scratch_left (s s' : state) : Prop :=
  fs s' ⊆ fs s
  /\ exists evs, trace s' = trace s ++ evs
                 /\ forall c p, c ∈ evs -> written_path c = Some p -> p ∉ fs s'.

(** The steps of the transcription pipeline. *)
Definition pipeline (c : event) : bool :=
  match c with
  | GetFile _ | DownloadToDrive _ _ | FromOgg _ | Export _ _ _
  | OpenAITranscribe _ => true
  | _ => false
  end.

(** A pipeline step that works on the attachment [v] and the two scratch
    files named after it; any other event. *)
Definition works_on (v : Attachment) (c : event) : Prop :=
  match c with
  | GetFile f => f = file_id v
  | DownloadToDrive _ p | Export _ p _ =>
      p = file_unique_id v +:+ ".ogg" \/ p = file_unique_id v +:+ ".mp3"
  | FromOgg p => p = file_unique_id v +:+ ".ogg"
  | OpenAITranscribe p => p = file_unique_id v +:+ ".mp3"
  | _ => True
  end.

(** What [transcribe] does with a voice note, in order: fetch, download
    to the [.ogg] path, decode, export to the [.mp3] path, transcribe the
    [.mp3] path.  [f] is the file handle and [seg] the decoded audio that the
    collaborators returned. *)
Definition voice_pipeline (v : Attachment) (f seg : string) : list event :=
  [GetFile (file_id v);
   DownloadToDrive f (file_unique_id v +:+ ".ogg");
   FromOgg (file_unique_id v +:+ ".ogg");
   Export seg (file_unique_id v +:+ ".mp3") "mp3";
   OpenAITranscribe (file_unique_id v +:+ ".mp3")].

(** What [transcribe] does with an audio attachment: fetch, download to
    the [.mp3] path, transcribe that path. *)
Definition audio_pipeline (a : Attachment) (f : string) : list event :=
  [GetFile (file_id a);
   DownloadToDrive f (file_unique_id a +:+ ".mp3");
   OpenAITranscribe (file_unique_id a +:+ ".mp3")].

(** Every call outside the OpenAI helper returns: the transport, the
    transcoder and the removals of the operating system. *)
Definition transport_returns (w : world) : Prop :=
  forall n c, backend_call c = false -> exists r, respond w n c = Ok r.

(** The same update without its audio attachment. *)
Definition without_audio (update : Update) : Update :=
  {| message := {| message_id := message_id (message update);
                   from_user := from_user (message update);
                   text := text (message update);
                   voice := voice (message update);
                   audio := None |};
     effective_chat := effective_chat update |}.

(** Every run of [m] relates its start state to its end state by [R],
    whether it returns or raises. *)
Definition stable (R : relation state) {A} (m : M A) : Prop :=
  forall s, R s (snd (m s)).

(** The log line after an unsuccessful group scan. *)
Definition scan_log (update : Update) : event :=
  Logging "info" ("Group chat messages from user "
                  +:+ user_name (from_user (message update)) +:+ " are not allowed").

(** The denial message of [send_disallowed_message]: the fixed text, no
    reply target, link previews disabled, no parse mode. *)
Definition denial (update : Update) : event :=
  SendMessage (chat_id (effective_chat update)) disallowed_message None true None.

(** The warning a guarded handler logs before the denial message. *)
Definition denial_warning (update : Update) (what : string) : event :=
  Logging "warning" ("User " +:+ user_name (from_user (message update))
                     +:+ " is not allowed to " +:+ what).

(** The wording of each handler's warning. *)
Definition denied_action (h : guarded) : string :=
  match h with
  | HReset => "reset the conversation"
  | HImage => "generate images"
  | HTranscribe => "transcribe audio messages"
  | HPrompt => "use the bot"
  end.

(** The state right after the marker of [is_allowed]. *)
Definition entered (s : state) : state :=
  State (clock s) (trace s ++ [IsAllowed]) (fs s).

(** ** Sample inputs *)

Definition alice : User := {| user_id := 42; user_name := "@alice" |}.
Definition mallory : User := {| user_id := 5; user_name := "@mallory" |}.
Definition direct_chat : Chat := {| chat_id := 42; chat_type := "private" |}.
Definition group_chat : Chat := {| chat_id := -100; chat_type := "group" |}.
Definition cfg_list : Config := {| allowed_user_ids := "42,99" |}.
Definition cfg_open : Config := {| allowed_user_ids := "*" |}.

Definition text_update (u : User) (c : Chat) (t : string) : Update :=
  {| message := {| message_id := 7; from_user := u; text := t;
                   voice := None; audio := None |};
     effective_chat := c |}.

Definition media_update (v a : option Attachment) : Update :=
  {| message := {| message_id := 7; from_user := alice; text := "";
                   voice := v; audio := a |};
     effective_chat := direct_chat |}.

Definition voice_abc : Attachment := {| file_id := "F-voice"; file_unique_id := "abc123" |}.
Definition audio_xyz : Attachment := {| file_id := "F-audio"; file_unique_id := "xyz" |}.

(** Every call returns; membership queries report the status [left]. *)
Definition w_quiet : world :=
  {| respond := fun _ c => match c with
                           | GetMember _ _ => Ok "left"
                           | _ => Ok "ok"
                           end;
     leaves_file := fun _ => false |}.

(** Membership queries raise, as Telegram does for an id it does not know. *)
Definition w_member_error : world :=
  {| respond := fun _ c => match c with
                           | GetMember _ _ => Raise (Exception "User not found")
                           | _ => Ok "ok"
                           end;
     leaves_file := fun _ => false |}.

(** The chat completion raises; every other call returns. *)
Definition w_chat_error : world :=
  {| respond := fun _ c => match c with
                           | GetChatResponse _ _ => Raise (Exception "Rate limit exceeded")
                           | _ => Ok "ok"
                           end;
     leaves_file := fun _ => true |}.

(** The export to mp3 raises after it has created its file. *)
Definition w_export_fails : world :=
  {| respond := fun _ c => match c with
                           | Export _ _ _ => Raise (Exception "encoder failed")
                           | _ => Ok "ok"
                           end;
     leaves_file := fun _ => true |}.

(** ** Further observations *)

(** What the body of a guarded handler may do on [update], once the
    policy has allowed it: log, talk to the conversation of the update (a
    threaded message is a reply to the update's message), call the OpenAI
    helper about this conversation, this text or this prompt, and work on
    files.  It never evaluates the policy or queries memberships. *)
Definition handler_event (update : Update) (c : event) : Prop :=
  let chat := chat_id (effective_chat update) in
  let mid := message_id (message update) in
  match c with
  | IsAllowed | GetMember _ _ => False
  | Logging level _ => level = "info" \/ level = "exception"
  | SendMessage ch _ reply preview _ =>
      ch = chat /\ preview = false /\ (reply = None \/ reply = Some mid)
  | SendChatAction ch a => ch = chat /\ (a = "typing" \/ a = "upload_photo")
  | SendPhoto ch reply _ => ch = chat /\ reply = mid
  | ResetChatHistory ch => ch = chat
  | GenerateImage p => p = image_query_of (text (message update))
  | GetChatResponse ch q => ch = chat /\ q = text (message update)
  | GetFile _ | DownloadToDrive _ _ | FromOgg _ | Export _ _ _
  | OpenAITranscribe _ | OsRemove _ => True
  end.

(** An event that, if it reaches the transport or the OpenAI helper with
    a conversation id, carries the id of the update's conversation, and that,
    if it is threaded, replies to the update's message. *)
Definition addressed_to (update : Update) (c : event) : Prop :=
  let chat := chat_id (effective_chat update) in
  let mid := message_id (message update) in
  match c with
  | GetMember ch _ | SendChatAction ch _ | ResetChatHistory ch
  | GetChatResponse ch _ => ch = chat
  | SendMessage ch _ reply _ _ => ch = chat /\ (reply = None \/ reply = Some mid)
  | SendPhoto ch reply _ => ch = chat /\ reply = mid
  | _ => True
  end.

(** The log line of a successful group scan. *)
Definition member_log (user : string) : event :=
  Logging "info" (user +:+ " is a member. Allowing group chat message...").

(** [m] makes at most [n] calls to the OpenAI helper, from any state and
    whatever its outcome. *)
Definition spends (n : nat) {A} (m : M A) : Prop :=
  forall s, exists evs,
    trace (snd (m s)) = trace s ++ evs
    /\ length (List.filter backend_call evs) <= n.

(** [s'] has exactly the files of [s]. *)
Definition same_files (s s' : state) : Prop := fs s' = fs s.

(** Membership queries for [99] report [member], the others [left]. *)
Definition w_member_99 : world :=
  {| respond := fun _ c => match c with
                           | GetMember _ "99" => Ok "member"
                           | GetMember _ _ => Ok "left"
                           | _ => Ok "ok"
                           end;
     leaves_file := fun _ => false |}.

(** The image generation raises [e]; every other call returns. *)
Definition w_image_error (e : exn) : world :=
  {| respond := fun _ c => match c with
                           | GenerateImage _ => Raise e
                           | _ => Ok "ok"
                           end;
     leaves_file := fun _ => false |}.

(** The photo cannot be sent; every other call returns. *)
Definition w_photo_error : world :=
  {| respond := fun _ c => match c with
                           | SendPhoto _ _ _ => Raise (Exception "Timed out")
                           | _ => Ok "ok"
                           end;
     leaves_file := fun _ => false |}.

(** The transcription raises; every other call returns. *)
Definition w_transcribe_error : world :=
  {| respond := fun _ c => match c with
                           | OpenAITranscribe _ => Raise (Exception "Invalid file format")
                           | _ => Ok "ok"
                           end;
     leaves_file := fun _ => false |}.

(** [s'] has every file of [s]. *)
Definition fs_grows (s s' : state) : Prop := fs s ⊆ fs s'.

(** What [transcribe] sends after the transcription answered [r]: the
    transcript as Markdown, or the log line and the failure report for an
    [Exception]; nothing for an exception that [except Exception] lets pass.
    All messages reply to the update's message. *)
Definition transcript_reply (update : Update) (r : result string) : list event :=
  let chat := chat_id (effective_chat update) in
  let mid := message_id (message update) in
  match r with
  | Ok t => [SendMessage chat t (Some mid) false (Some "Markdown")]
  | Raise (Exception m) =>
      [Logging "exception" m;
       SendMessage chat ("Failed to transcribe text: " +:+ m) (Some mid) false None]
  | Raise (BaseException _) => []
  end.

(** The allow-list for the ids [ms] as an operator writes it: their
    decimal forms, separated by commas. *)
Fixpoint join_ids (ms : list Z) : string :=
  match ms with
  | [] => ""
  | [m] => PyStr.str m
  | m :: rest => PyStr.str m +:+ "," +:+ join_ids rest
  end.

(** A minus sign or a decimal digit. *)
Definition sign_or_digit (c : ascii) : bool :=
  let n := nat_of_ascii c in
  ((n =? 45) || ((48 <=? n) && (n <=? 57)))%nat.

Fixpoint all_sign_or_digit (s : string) : bool :=
  match s with
  | EmptyString => true
  | String c s' => sign_or_digit c && all_sign_or_digit s'
  end.

(** Group-membership queries. *)
Definition member_query (c : event) : bool :=
  match c with GetMember _ _ => true | _ => false end.

(** The operating system carries out every removal. *)
Definition removals_return (w : world) : Prop :=
  forall n p, exists r, respond w n (OsRemove p) = Ok r.

(** A directory named [abc123.mp3] stands where the export wants to
    write: the export raises, and so does the removal of that path. *)
Definition w_mp3_is_directory : world :=
  {| respond := fun _ c =>
       match c with
       | Export _ _ _ => Raise (Exception "[Errno 21] Is a directory: 'abc123.mp3'")
       | OsRemove p =>
           if String.eqb p "abc123.mp3"
           then Raise (Exception "[Errno 21] Is a directory: 'abc123.mp3'")
           else Ok "ok"
       | _ => Ok "ok"
       end;
     leaves_file := fun _ => false |}.

(** * Properties *)

Example replace_every_occurrence :
  PyStr.replace "/image" "" "/image a cat /image b" = " a cat  b".
Proof. reflexivity. Qed.
Example replace_nested : PyStr.replace "/image" "" "/im/imageage" = "/image".
Proof. reflexivity. Qed.
Example strip_both_ends : PyStr.strip "  a b  " = "a b".
Proof. reflexivity. Qed.
Example split_keeps_empty_fields : PyStr.split ","%char "42,,99," = ["42"; ""; "99"; ""].
Proof. reflexivity. Qed.
Example str_negative : PyStr.str (-42) = "-42".
Proof. reflexivity. Qed.

(** Membership in a concrete list, decided by evaluation. *)
Ltac absent_by_evaluation :=
  match goal with
  | |- ?x ∉ ?l => apply (bool_decide_eq_false_1 (x ∈ l)); vm_compute; reflexivity
  end.

Ltac present_by_evaluation :=
  match goal with
  | |- ?x ∈ ?l => apply (bool_decide_unpack (x ∈ l)); vm_compute; exact I
  end.

(** ** [str.replace] and [str.strip] *)

(** Passing over [k] characters is dropping them. *)
Lemma replace_scan_skip (old new : string) (k : nat) (s : string) :
  PyStr.replace_scan old new k s = PyStr.replace_scan old new 0 (PyStr.drop k s).
Proof.
  revert k. induction s as [|c s IH]; intros [|k]; try reflexivity.
  cbn [PyStr.replace_scan PyStr.drop]. apply IH.
Qed.

(** The scan, as the recursion it implements: at a match, [new] and the
    rest after the occurrence; otherwise the character and the rest. *)
Lemma replace_unfold (old new : string) (c : ascii) (s : string) :
  old <> "" ->
  PyStr.replace old new (String c s)
  = if PyStr.startswith old (String c s)
    then new +:+ PyStr.replace old new (PyStr.drop (String.length old) (String c s))
    else String c (PyStr.replace old new s).
Proof.
  intros Hold. unfold PyStr.replace. destruct old as [|o old']; [congruence|].
  cbn [PyStr.replace_scan String.length PyStr.drop].
  replace (S (String.length old') - 1) with (String.length old') by lia.
  now rewrite replace_scan_skip.
Qed.

Lemma startswith_split (p s : string) :
  PyStr.startswith p s = true -> exists t, s = p +:+ t.
Proof.
  revert s. induction p as [|a p IH]; intros s H.
  - now exists s.
  - destruct s as [|b s]; [discriminate|]. cbn in H.
    destruct (Ascii.eqb_spec a b) as [->|]; [|discriminate].
    destruct (IH s H) as [t ->]. now exists t.
Qed.


Lemma string_app_nil (b : string) : "" +:+ b = b.
Proof. reflexivity. Qed.

Lemma string_app_cons (c : ascii) (a b : string) : String c a +:+ b = String c (a +:+ b).
Proof. reflexivity. Qed.

Lemma string_app_assoc (a b c : string) : (a +:+ b) +:+ c = a +:+ (b +:+ c).
Proof.
  induction a as [|x a IH]; [reflexivity|].
  rewrite !string_app_cons. now f_equal.
Qed.

Lemma string_length_app (a b : string) :
  String.length (a +:+ b) = String.length a + String.length b.
Proof.
  induction a as [|x a IH]; [reflexivity|].
  rewrite string_app_cons. cbn. now f_equal.
Qed.

(** The command token at the head is removed, for any rest. *)
Lemma replace_image_head (z : string) :
  PyStr.replace "/image" "" ("/image" +:+ z) = PyStr.replace "/image" "" z.
Proof. reflexivity. Qed.

(** [/image] does not overlap itself: text that does not start with it
    does not start with it either once an occurrence is appended, whatever
    comes after. *)
Lemma startswith_image_app (a z : string) :
  a <> "" ->
  PyStr.startswith "/image" a = false ->
  PyStr.startswith "/image" (a +:+ "/image" +:+ z) = false.
Proof.
  intros Ha H.
  destruct a as [|c1 [|c2 [|c3 [|c4 [|c5 [|c6 a]]]]]]; [congruence|..];
    rewrite ?string_app_cons, ?string_app_nil; cbn in *;
    repeat match goal with
           | |- context [Ascii.eqb ?x ?y] => destruct (Ascii.eqb x y)
           end;
    solve [reflexivity | exact H].
Qed.

(** Every occurrence is removed: an occurrence of [/image] anywhere in
    the text disappears, and what is before and after it is treated the
    same way. *)
Lemma replace_image_app (a b : string) :
  PyStr.replace "/image" "" (a +:+ "/image" +:+ b)
  = PyStr.replace "/image" "" a +:+ PyStr.replace "/image" "" b.
Proof.
  remember (String.length a) as n eqn:Hn. revert a Hn.
  induction n as [n IH] using lt_wf_ind. intros a Hn.
  destruct a as [|c a']; [apply replace_image_head|].
  destruct (PyStr.startswith "/image" (String c a')) eqn:Hs.
  - destruct (startswith_split _ _ Hs) as [t Ht]. rewrite Ht.
    rewrite string_app_assoc, !replace_image_head.
    apply (IH (String.length t)); [|reflexivity].
    rewrite Hn, Ht, string_length_app. cbn. lia.
  - rewrite (string_app_cons c a'), !replace_unfold by discriminate. rewrite Hs.
    rewrite <- (string_app_cons c a').
    rewrite startswith_image_app by (congruence || exact Hs).
    rewrite (string_app_cons c (PyStr.replace "/image" "" a')). f_equal.
    apply (IH (String.length a')); [|reflexivity]. rewrite Hn. cbn. lia.
Qed.

Lemma isspace_not_slash (c : ascii) :
  PyStr.isspace c = true -> Ascii.eqb "/" c = false.
Proof.
  intros H. destruct (Ascii.eqb_spec "/"%char c) as [<-|]; [discriminate|reflexivity].
Qed.

(** Whitespace holds no command token, and strips to nothing. *)
Lemma replace_image_spaces (ws : string) :
  PyStr.all_space ws = true -> PyStr.replace "/image" "" ws = ws.
Proof.
  induction ws as [|c ws IH]; [reflexivity|]. cbn [PyStr.all_space].
  intros [Hc Hws]%andb_prop. rewrite replace_unfold by discriminate.
  cbn [PyStr.startswith]. rewrite (isspace_not_slash c Hc). now rewrite IH.
Qed.

Lemma strip_spaces (ws : string) :
  PyStr.all_space ws = true -> PyStr.strip ws = "".
Proof.
  unfold PyStr.strip. induction ws as [|c ws IH]; [reflexivity|].
  cbn [PyStr.all_space PyStr.lstrip]. intros [Hc Hws]%andb_prop.
  rewrite Hc. now apply IH.
Qed.

(** Case analysis on the answer of the call the goal is waiting for. *)
Ltac case_respond :=
  match goal with
  | |- context [match respond ?w ?n ?c with _ => _ end] =>
      let r := fresh "r" in
      destruct (respond w n c) as [r|r] eqn:?
  end.

(** ** The monad *)

Lemma bind_ok {A B} (m : M A) (k : A -> M B) s a s' :
  m s = (Ok a, s') -> bind m k s = k a s'.
Proof. intros H. unfold bind. now rewrite H. Qed.

Lemma bind_raise {A B} (m : M A) (k : A -> M B) s e s' :
  m s = (Raise e, s') -> bind m k s = (Raise e, s').
Proof. intros H. unfold bind. now rewrite H. Qed.

(** [stable R] is closed under the control structures of the handlers,
    for any reflexive and transitive [R]. *)
Section Stable.

Context (R : relation state) `{!PreOrder R}.

Lemma stable_ret {A} (a : A) : stable R (ret a).
Proof. intros s. reflexivity. Qed.

Lemma stable_raise {A} (e : exn) : stable R (@raise A e).
Proof. intros s. reflexivity. Qed.

Lemma stable_bind {A B} (m : M A) (k : A -> M B) :
  stable R m -> (forall a, stable R (k a)) -> stable R (bind m k).
Proof.
  intros Hm Hk s. unfold bind. specialize (Hm s).
  destruct (m s) as [[a|e] s1]; cbn in *.
  - etransitivity; [exact Hm | apply Hk].
  - exact Hm.
Qed.

Lemma stable_try_except {A} (body : M A) (handler : exn -> M A) :
  stable R body -> (forall e, stable R (handler e)) ->
  stable R (try_except body handler).
Proof.
  intros Hb Hh s. unfold try_except. specialize (Hb s).
  destruct (body s) as [[a|e] s1]; cbn in *; [exact Hb|].
  destruct (is_Exception e); cbn; [|exact Hb].
  etransitivity; [exact Hb | apply Hh].
Qed.

Lemma stable_try_finally {A} (body : M A) (cleanup : M unit) :
  stable R body -> stable R cleanup -> stable R (try_finally body cleanup).
Proof.
  intros Hb Hc s. unfold try_finally. specialize (Hb s).
  destruct (body s) as [r s1]. specialize (Hc s1).
  destruct (cleanup s1) as [[[]|e] s2]; cbn in *; etransitivity; eauto.
Qed.

Lemma stable_if {A} (b : bool) (m1 m2 : M A) :
  stable R m1 -> stable R m2 -> stable R (if b then m1 else m2).
Proof. now destruct b. Qed.

End Stable.

#[global] Instance extends_by_preorder (P : event -> Prop) : PreOrder (extends_by P).
Proof.
  split.
  - intros s. exists []. now rewrite app_nil_r.
  - intros s1 s2 s3 (e1 & H1 & F1) (e2 & H2 & F2). exists (e1 ++ e2). split.
    + now rewrite H2, H1, app_assoc.
    + now apply Forall_app.
Qed.

#[global] Instance fs_within_preorder (X : gset string) : PreOrder (fs_within X).
Proof.
  split.
  - intros s. unfold fs_within. set_solver.
  - intros s1 s2 s3. unfold fs_within. set_solver.
Qed.

Lemma extends_by_weaken (P Q : event -> Prop) s s' :
  (forall c, P c -> Q c) -> extends_by P s s' -> extends_by Q s s'.
Proof.
  intros HPQ (evs & Ht & HF). exists evs. split; [exact Ht|].
  eapply Forall_impl; eauto.
Qed.

Section Primitives.

Variable w : world.

Lemma emit_extends (P : event -> Prop) c : P c -> stable (extends_by P) (emit c).
Proof. intros Hc s. exists [c]. cbn. auto. Qed.

Lemma call_extends (P : event -> Prop) c : P c -> stable (extends_by P) (call w c).
Proof. intros Hc s. exists [c]. cbn. auto. Qed.

Lemma os_remove_extends (P : event -> Prop) p :
  P (OsRemove p) -> stable (extends_by P) (os_remove w p).
Proof.
  intros Hc s. exists [OsRemove p]. unfold os_remove.
  destruct (respond w (clock s) (OsRemove p)); cbn; auto.
Qed.

Lemma os_path_exists_stable (R : relation state) `{!PreOrder R} p :
  stable R (os_path_exists p).
Proof. intros s. reflexivity. Qed.

Lemma emit_fs X c : stable (fs_within X) (emit c).
Proof. intros s. unfold fs_within. cbn. set_solver. Qed.

Lemma call_fs X c :
  (forall p, written_path c = Some p -> p ∈ X) -> stable (fs_within X) (call w c).
Proof.
  intros Hc s. unfold fs_within, call, fs_after. cbn.
  destruct (written_path c) as [p|]; [|set_solver].
  specialize (Hc p eq_refl).
  destruct (respond w (clock s) c); [|destruct (leaves_file w (clock s))]; set_solver.
Qed.

Lemma os_remove_fs X p : stable (fs_within X) (os_remove w p).
Proof.
  intros s. unfold fs_within, os_remove.
  destruct (respond w (clock s) (OsRemove p)); cbn [snd fs]; set_solver.
Qed.

End Primitives.

Lemma bind_ret {A B} (a : A) (k : A -> M B) s : bind (ret a) k s = k a s.
Proof. reflexivity. Qed.

Lemma bind_emit {B} (c : event) (k : unit -> M B) s :
  bind (emit c) k s = k tt (State (clock s) (trace s ++ [c]) (fs s)).
Proof. reflexivity. Qed.

Lemma bind_call {B} w (c : event) (k : string -> M B) s :
  bind (call w c) k s
  = let s' := State (S (clock s)) (trace s ++ [c])
                    (fs_after c (respond w (clock s) c) (leaves_file w (clock s)) (fs s)) in
    match respond w (clock s) c with
    | Ok r => k r s'
    | Raise e => (Raise e, s')
    end.
Proof. unfold bind, call. cbn. now destruct (respond w (clock s) c). Qed.

(** ** The access policy *)

Section Policy.

Variable w : world.
Variable config : Config.
Variable update : Update.

Let chat := chat_id (effective_chat update).
Let ids := PyStr.split ","%char (allowed_user_ids config).
Let sender := PyStr.str (user_id (from_user (message update))).

(** One turn of the loop. *)
Lemma group_scan_cons (user : string) (rest : list string) (s : state) :
  group_scan w update (user :: rest) s
  = let s1 := State (S (clock s)) (trace s ++ [GetMember chat user]) (fs s) in
    match respond w (clock s) (GetMember chat user) with
    | Ok st =>
        if bool_decide (st ∈ member_statuses)
        then (Ok true,
              State (S (clock s))
                (trace s ++ [GetMember chat user;
                             Logging "info" (user +:+ " is a member. Allowing group chat message...")])
                (fs s))
        else group_scan w update rest s1
    | Raise e => (Raise e, s1)
    end.
Proof.
  cbn [group_scan]. unfold is_user_in_group, bind, call. fold chat.
  destruct (respond w (clock s) (GetMember chat user)) as [st|e]; cbn; [|reflexivity].
  destruct (bool_decide (st ∈ member_statuses)); cbn; [|reflexivity].
  now rewrite <- app_assoc.
Qed.

(** A scan in which every query reports a non-member status queries every
    id in order and falls through to the denial. *)
Lemma group_scan_no_member (l : list string) (s : state) :
  (forall n user, user ∈ l ->
     exists st, respond w n (GetMember chat user) = Ok st /\ st ∉ member_statuses) ->
  group_scan w update l s
  = (Ok false, State (clock s + length l)
                     (trace s ++ map (GetMember chat) l ++ [scan_log update]) (fs s)).
Proof.
  revert s. induction l as [|user rest IH]; intros s Hl.
  - cbn. now rewrite Nat.add_0_r.
  - destruct (Hl (clock s) user) as (st & Hst & Hno); [left|].
    rewrite group_scan_cons. cbn zeta. rewrite Hst.
    rewrite bool_decide_eq_false_2 by exact Hno.
    rewrite IH by (intros n u Hu; apply Hl; now right).
    cbn. now rewrite <- app_assoc, Nat.add_succ_r.
Qed.

(** A scan whose first raising query comes after non-member answers only
    stops there with that exception: the ids after it are not queried. *)
Lemma group_scan_query_raises (pre post : list string) (user : string) e (s : state) :
  (forall i u, pre !! i = Some u ->
     exists st, respond w (clock s + i) (GetMember chat u) = Ok st /\ st ∉ member_statuses) ->
  respond w (clock s + length pre) (GetMember chat user) = Raise e ->
  group_scan w update (pre ++ user :: post) s
  = (Raise e, State (S (clock s + length pre))
                    (trace s ++ map (GetMember chat) (pre ++ [user])) (fs s)).
Proof.
  revert s. induction pre as [|u pre IH]; intros s Hpre Hraise.
  - cbn [app length] in *. rewrite Nat.add_0_r in *.
    rewrite group_scan_cons. cbn zeta. now rewrite Hraise.
  - destruct (Hpre 0 u eq_refl) as (st & Hst & Hno). rewrite Nat.add_0_r in Hst.
    cbn [app length]. rewrite group_scan_cons. cbn zeta. rewrite Hst.
    rewrite bool_decide_eq_false_2 by exact Hno.
    rewrite IH; cbn [clock trace fs].
    + cbn. now rewrite <- app_assoc, Nat.add_succ_r.
    + intros i u' Hi. specialize (Hpre (S i) u' Hi).
      now rewrite Nat.add_succ_r in Hpre.
    + cbn in Hraise. now rewrite Nat.add_succ_r in Hraise.
Qed.

(** A scan only queries memberships and logs, and touches no file. *)
Lemma group_scan_policy_only (l : list string) (s : state) :
  extends_by (fun c => policy_event c /\ c <> IsAllowed) s (snd (group_scan w update l s))
  /\ fs (snd (group_scan w update l s)) = fs s.
Proof.
  revert s. induction l as [|user rest IH]; intros s.
  - split; [|reflexivity]. eexists [_]. cbn. split; [reflexivity|].
    constructor; [|constructor]. now split.
  - rewrite group_scan_cons. cbn zeta.
    destruct (respond w (clock s) (GetMember chat user)) as [st|e].
    + destruct (bool_decide (st ∈ member_statuses)).
      * split; [|reflexivity]. eexists [_; _]. cbn.
        split; [reflexivity|]. repeat constructor; discriminate.
      * match goal with |- context [group_scan w update rest ?s1] =>
          destruct (IH s1) as [(evs & Ht & HF) Hfs] end.
        split; [|exact Hfs]. exists (GetMember chat user :: evs).
        rewrite Ht. cbn. rewrite <- app_assoc. split; [reflexivity|].
        constructor; [|exact HF]. now split.
    + split; [|reflexivity]. eexists [_]. cbn. split; [reflexivity|].
      repeat constructor; discriminate.
Qed.

(** The four ways through [is_allowed]. *)
Lemma is_allowed_open (s : state) :
  allowed_user_ids config = "*" ->
  is_allowed w config update s = (Ok true, entered s).
Proof. intros H. unfold is_allowed, bind, emit. now rewrite H. Qed.

Lemma is_allowed_listed (s : state) :
  sender ∈ ids -> is_allowed w config update s = (Ok true, entered s).
Proof.
  intros H. unfold is_allowed, bind, emit.
  destruct (String.eqb _ "*"); [reflexivity|].
  fold ids sender. now rewrite bool_decide_eq_true_2.
Qed.

Lemma is_allowed_scan (s : state) :
  allowed_user_ids config <> "*" -> sender ∉ ids -> is_group_chat update = true ->
  is_allowed w config update s = group_scan w update ids (entered s).
Proof.
  intros Hw Hl Hg. unfold is_allowed, bind, emit.
  apply String.eqb_neq in Hw. rewrite Hw. fold ids sender.
  rewrite bool_decide_eq_false_2 by exact Hl. now rewrite Hg.
Qed.

Lemma is_allowed_direct (s : state) :
  allowed_user_ids config <> "*" -> sender ∉ ids -> is_group_chat update = false ->
  is_allowed w config update s = (Ok false, entered s).
Proof.
  intros Hw Hl Hg. unfold is_allowed, bind, emit.
  apply String.eqb_neq in Hw. rewrite Hw. fold ids sender.
  rewrite bool_decide_eq_false_2 by exact Hl. now rewrite Hg.
Qed.

(** Whatever the world answers, an evaluation of the policy is its marker
    followed by membership queries and log lines, and it touches no file. *)
Lemma is_allowed_shape (s : state) :
  exists evs, trace (snd (is_allowed w config update s)) = trace s ++ IsAllowed :: evs
              /\ Forall (fun c => policy_event c /\ c <> IsAllowed) evs
              /\ fs (snd (is_allowed w config update s)) = fs s.
Proof.
  destruct (String.eqb_spec (allowed_user_ids config) "*") as [Hw|Hw].
  { rewrite is_allowed_open by exact Hw. exists []. cbn. auto. }
  destruct (decide (sender ∈ ids)) as [Hl|Hl].
  { rewrite is_allowed_listed by exact Hl. exists []. cbn. auto. }
  destruct (is_group_chat update) eqn:Hg.
  - rewrite is_allowed_scan by assumption.
    destruct (group_scan_policy_only ids (entered s)) as [(evs & Ht & HF) Hfs].
    exists evs. rewrite Ht, Hfs. cbn. now rewrite <- app_assoc.
  - rewrite is_allowed_direct by assumption. exists []. cbn. auto.
Qed.

End Policy.

(** ** The handlers behind the policy *)

(** A guarded handler whose policy evaluation raises ends there. *)
Lemma handle_policy_raises h w config update s e s1 :
  is_allowed w config update s = (Raise e, s1) ->
  handle h w config update s = (Raise e, s1).
Proof.
  intros Hp. destruct h; cbn [handle]; unfold reset, image, transcribe, prompt;
    now rewrite (bind_raise _ _ _ _ _ Hp).
Qed.

(** A guarded handler whose policy evaluation denies logs its warning,
    sends the denial message and does nothing else; its outcome is that of
    the send. *)
Lemma handle_denied h w config update s s1 :
  is_allowed w config update s = (Ok false, s1) ->
  handle h w config update s
  = (match respond w (clock s1) (denial update) with
     | Ok _ => Ok tt
     | Raise e => Raise e
     end,
     State (S (clock s1))
           (trace s1 ++ [denial_warning update (denied_action h); denial update])
           (fs s1)).
Proof.
  intros Hp. destruct h; cbn [handle]; unfold reset, image, transcribe, prompt;
    rewrite (bind_ok _ _ _ _ _ Hp); cbn [negb];
    unfold deny, send_disallowed_message, send_message, bind, emit, call, ret;
    fold (denial update); cbn;
    (destruct (respond w (clock s1) (denial update)); cbn;
     now rewrite <- app_assoc).
Qed.

Lemma filter_outbound_queries chat (l : list string) :
  List.filter outbound (map (GetMember chat) l) = [].
Proof. induction l; cbn; auto. Qed.

Lemma forallb_no_backend_queries chat (l : list string) :
  forallb (fun c => negb (backend_call c)) (map (GetMember chat) l) = true.
Proof. induction l; cbn; auto. Qed.

(** C6: a sender whose id, written in decimal, is one of the comma-separated
    fields of the configured allow-list is allowed, whatever the kind of the
    conversation: [is_allowed] returns [True] right after its marker, without
    a membership query. *)
Theorem listed_sender_is_allowed (w : world) (config : Config) (update : Update)
    (files : gset string) :
  PyStr.str (user_id (from_user (message update)))
    ∈ PyStr.split ","%char (allowed_user_ids config) ->
  is_allowed w config update (init files) = (Ok true, State 0 [IsAllowed] files).
Proof.
  intros Hin. now rewrite is_allowed_listed.
Qed.

Lemma listed_sender_is_allowed_witness :
  PyStr.str 42 ∈ PyStr.split ","%char "42,99"
  /\ is_allowed w_quiet cfg_list (text_update alice group_chat "hi") (init ∅)
     = (Ok true, State 0 [IsAllowed] ∅)
  /\ is_allowed w_quiet cfg_list (text_update alice direct_chat "hi") (init ∅)
     = (Ok true, State 0 [IsAllowed] ∅).
Proof.
  assert (H : PyStr.str 42 ∈ PyStr.split ","%char "42,99")
    by present_by_evaluation.
  split; [exact H|].
  split; apply listed_sender_is_allowed; exact H.
Defined.

(** C3, as the code has it: in the group scan a membership query that
    raises is not caught.  When the queries before it returned non-member
    statuses, [is_allowed] ends with that exception right after the failing
    query, the ids after it are not queried, and every guarded handler ends
    with the same exception in the same state: no decision, no denial
    message. *)
Theorem membership_query_failure_propagates (w : world) (config : Config)
    (update : Update) (files : gset string)
    (pre post : list string) (user : string) (e : exn) :
  allowed_user_ids config <> "*" ->
  PyStr.str (user_id (from_user (message update)))
    ∉ PyStr.split ","%char (allowed_user_ids config) ->
  is_group_chat update = true ->
  PyStr.split ","%char (allowed_user_ids config) = pre ++ user :: post ->
  (forall i u, pre !! i = Some u ->
     exists st, respond w i (GetMember (chat_id (effective_chat update)) u) = Ok st
                /\ st ∉ member_statuses) ->
  respond w (length pre) (GetMember (chat_id (effective_chat update)) user) = Raise e ->
  let stopped :=
    State (S (length pre))
          (IsAllowed :: map (GetMember (chat_id (effective_chat update))) (pre ++ [user]))
          files in
  is_allowed w config update (init files) = (Raise e, stopped)
  /\ forall h, handle h w config update (init files) = (Raise e, stopped).
Proof.
  intros Hw Hl Hg Hsplit Hpre Hraise stopped.
  assert (Hp : is_allowed w config update (init files) = (Raise e, stopped)).
  { rewrite is_allowed_scan by assumption. rewrite Hsplit.
    rewrite (group_scan_query_raises w update pre post user e); [reflexivity | |];
      cbn [entered init clock Nat.add]; assumption. }
  split; [exact Hp|].
  intros h. now apply handle_policy_raises.
Qed.

Lemma membership_query_failure_propagates_witness :
  is_allowed w_member_error cfg_list (text_update mallory group_chat "hi") (init ∅)
  = (Raise (Exception "User not found"), State 1 [IsAllowed; GetMember (-100) "42"] ∅)
  /\ forall h,
       handle h w_member_error cfg_list (text_update mallory group_chat "hi") (init ∅)
       = (Raise (Exception "User not found"),
          State 1 [IsAllowed; GetMember (-100) "42"] ∅).
Proof.
  apply (membership_query_failure_propagates w_member_error cfg_list
           (text_update mallory group_chat "hi") ∅ [] ["99"] "42"
           (Exception "User not found")).
  - discriminate.
  - absent_by_evaluation.
  - reflexivity.
  - reflexivity.
  - intros i u H. rewrite lookup_nil in H. discriminate.
  - reflexivity.
Defined.

(** C3, as the claim states it, fails: with the allow-list [42,99] and a
    group in which the membership query raises, the allow check returns no
    decision at all (it ends with the query's error), and the next id, [99],
    is never queried. *)
Lemma membership_error_is_not_a_non_member :
  (forall decision s',
     is_allowed w_member_error cfg_list (text_update mallory group_chat "hi") (init ∅)
     <> (Ok decision, s'))
  /\ fst (is_allowed w_member_error cfg_list (text_update mallory group_chat "hi") (init ∅))
     = Raise (Exception "User not found")
  /\ GetMember (-100) "99"
     ∉ trace (snd (is_allowed w_member_error cfg_list
                     (text_update mallory group_chat "hi") (init ∅))).
Proof.
  assert (E : is_allowed w_member_error cfg_list (text_update mallory group_chat "hi")
                (init ∅)
              = (Raise (Exception "User not found"),
                 State 1 [IsAllowed; GetMember (-100) "42"] ∅)) by reflexivity.
  rewrite E. split; [discriminate|]. split; [reflexivity|].
  cbn [snd trace]. intros H.
  repeat (apply elem_of_cons in H as [H|H]; [discriminate|]).
  now apply elem_of_nil in H.
Qed.

(** C5, as the code has it: in a group conversation whose sender is not
    in the (non-wildcard) allow-list and where every membership query
    returns, with a status other
    than administrator, member or creator, [is_allowed] returns [False], and
    each guarded handler does exactly this: the policy's queries and log
    line, its warning, and one [send_message] carrying the fixed disallowed
    text with link previews disabled.  That message is the only thing sent,
    and the OpenAI helper is never called. *)
Theorem group_without_member_is_denied (h : guarded) (w : world) (config : Config)
    (update : Update) (files : gset string) :
  allowed_user_ids config <> "*" ->
  PyStr.str (user_id (from_user (message update)))
    ∉ PyStr.split ","%char (allowed_user_ids config) ->
  is_group_chat update = true ->
  (forall n user, user ∈ PyStr.split ","%char (allowed_user_ids config) ->
     exists st, respond w n (GetMember (chat_id (effective_chat update)) user) = Ok st
                /\ st ∉ member_statuses) ->
  fst (is_allowed w config update (init files)) = Ok false
  /\ trace (snd (handle h w config update (init files)))
     = IsAllowed
       :: map (GetMember (chat_id (effective_chat update)))
              (PyStr.split ","%char (allowed_user_ids config))
       ++ [scan_log update; denial_warning update (denied_action h); denial update]
  /\ List.filter outbound (trace (snd (handle h w config update (init files))))
     = [SendMessage (chat_id (effective_chat update)) disallowed_message None true None]
  /\ forallb (fun c => negb (backend_call c))
             (trace (snd (handle h w config update (init files)))) = true.
Proof.
  intros Hw Hl Hg Hq.
  pose proof (is_allowed_scan w config update (init files) Hw Hl Hg) as Hp.
  rewrite (group_scan_no_member w update _ _ Hq) in Hp.
  rewrite Hp. split; [reflexivity|].
  assert (Ht : trace (snd (handle h w config update (init files)))
               = IsAllowed
                 :: map (GetMember (chat_id (effective_chat update)))
                        (PyStr.split ","%char (allowed_user_ids config))
                 ++ [scan_log update; denial_warning update (denied_action h);
                     denial update]).
  { rewrite (handle_denied _ _ _ _ _ _ Hp). cbn [snd trace entered init app].
    now rewrite <- app_assoc. }
  rewrite Ht. split; [reflexivity|]. split.
  - cbn [List.filter outbound]. rewrite List.filter_app, filter_outbound_queries.
    reflexivity.
  - cbn [forallb backend_call negb andb]. rewrite forallb_app, forallb_no_backend_queries.
    reflexivity.
Qed.

Lemma group_without_member_is_denied_witness :
  fst (is_allowed w_quiet cfg_list (text_update mallory group_chat "hello") (init ∅))
  = Ok false
  /\ trace (snd (handle HPrompt w_quiet cfg_list (text_update mallory group_chat "hello")
                   (init ∅)))
     = [IsAllowed; GetMember (-100) "42"; GetMember (-100) "99";
        Logging "info" "Group chat messages from user @mallory are not allowed";
        Logging "warning" "User @mallory is not allowed to use the bot";
        SendMessage (-100) disallowed_message None true None].
Proof.
  destruct (group_without_member_is_denied HPrompt w_quiet cfg_list
              (text_update mallory group_chat "hello") ∅) as (H1 & H2 & _).
  - discriminate.
  - absent_by_evaluation.
  - reflexivity.
  - intros n user _. exists "left". split; [reflexivity|].
    absent_by_evaluation.
  - split; [exact H1 | exact H2].
Defined.

(** C5, as the claim states it, fails: with the allow-list [42,99] in a
    group where Telegram knows neither id, no allow-listed id is a member
    (no membership query reports one as administrator, member or creator)
    and the sender is not listed; yet the access check does not return
    [False], it ends with the error of the first query, and no handler
    sends the denial message. *)
Lemma unknown_ids_get_no_denial :
  allowed_user_ids cfg_list <> "*"
  /\ (PyStr.str (user_id mallory) ∉ PyStr.split ","%char (allowed_user_ids cfg_list))
  /\ is_group_chat (text_update mallory group_chat "hi") = true
  /\ (forall n user st,
        respond w_member_error n (GetMember (-100) user) = Ok st ->
        st ∉ member_statuses)
  /\ fst (is_allowed w_member_error cfg_list (text_update mallory group_chat "hi") (init ∅))
     <> Ok false
  /\ forall h,
       denial (text_update mallory group_chat "hi")
       ∉ trace (snd (handle h w_member_error cfg_list
                       (text_update mallory group_chat "hi") (init ∅))).
Proof.
  assert (E : is_allowed w_member_error cfg_list (text_update mallory group_chat "hi")
                (init ∅)
              = (Raise (Exception "User not found"),
                 State 1 [IsAllowed; GetMember (-100) "42"] ∅)) by reflexivity.
  split; [discriminate|]. split; [absent_by_evaluation|]. split; [reflexivity|].
  split; [intros n user st H; discriminate|].
  split; [rewrite E; discriminate|].
  intros h. rewrite (handle_policy_raises _ _ _ _ _ _ _ E). cbn [snd trace].
  intros H. repeat (apply elem_of_cons in H as [H|H]; [discriminate|]).
  now apply elem_of_nil in H.
Qed.

(** The policy is stable for every property of traces that its own events
    satisfy, and for every bound on the files. *)
Lemma is_allowed_extends (P : event -> Prop) w config update :
  (forall c, policy_event c -> P c) ->
  stable (extends_by P) (is_allowed w config update).
Proof.
  intros HP s. destruct (is_allowed_shape w config update s) as (evs & Ht & HF & _).
  exists (IsAllowed :: evs). split; [exact Ht|].
  constructor; [now apply HP|].
  eapply Forall_impl; [exact HF|]. intros c [Hc _]. now apply HP.
Qed.

Lemma is_allowed_fs (X : gset string) w config update :
  stable (fs_within X) (is_allowed w config update).
Proof.
  intros s. destruct (is_allowed_shape w config update s) as (evs & _ & _ & Hfs).
  unfold fs_within. rewrite Hfs. set_solver.
Qed.

(** From the initial state, the whole trace is the extension. *)
Lemma stable_from_init (P : event -> Prop) {A} (m : M A) (files : gset string) :
  stable (extends_by P) m -> Forall P (trace (snd (m (init files)))).
Proof. intros Hm. destruct (Hm (init files)) as (evs & -> & HF). exact HF. Qed.

(** ** [transcribe]: the scratch files *)

#[global] Instance no_scratch_left_preorder : PreOrder no_scratch_left.
Proof.
  split.
  - intros s. split; [set_solver|]. exists []. split; [now rewrite app_nil_r|].
    intros c p Hc. inversion Hc.
  - intros s1 s2 s3 [Hf1 (e1 & Ht1 & Hw1)] [Hf2 (e2 & Ht2 & Hw2)].
    split; [set_solver|]. exists (e1 ++ e2). split.
    + now rewrite Ht2, Ht1, app_assoc.
    + intros c p [Hc|Hc]%elem_of_app Hp.
      * specialize (Hw1 c p Hc Hp). set_solver.
      * exact (Hw2 c p Hc Hp).
Qed.

Lemma emit_no_scratch c : written_path c = None -> stable no_scratch_left (emit c).
Proof.
  intros Hc s. split; [cbn [emit snd fs]; set_solver|]. exists [c]. split; [reflexivity|].
  intros c' p ->%list_elem_of_singleton Hp. congruence.
Qed.

Lemma call_no_scratch w c : written_path c = None -> stable no_scratch_left (call w c).
Proof.
  intros Hc s. unfold call, fs_after. cbn [snd fs clock trace]. rewrite Hc.
  split; [set_solver|]. exists [c]. split; [reflexivity|].
  intros c' p ->%list_elem_of_singleton Hp. congruence.
Qed.

Lemma is_allowed_no_scratch w config update :
  stable no_scratch_left (is_allowed w config update).
Proof.
  intros s. destruct (is_allowed_shape w config update s) as (evs & Ht & HF & Hfs).
  split; [rewrite Hfs; set_solver|]. exists (IsAllowed :: evs). split; [exact Ht|].
  intros c p Hc Hp. exfalso. apply elem_of_cons in Hc as [->|Hc]; [discriminate|].
  rewrite Forall_forall in HF. destruct (HF c Hc) as [Hpol _].
  destruct c; cbn in *; solve [discriminate | contradiction].
Qed.

(** The [finally] block only calls [os.remove], and creates no file. *)
Lemma cleanup_files_run w (mp3 ogg : string) (s : state) :
  exists evs,
    trace (snd (cleanup_files w mp3 ogg s)) = trace s ++ evs
    /\ Forall (fun c => exists p, c = OsRemove p) evs
    /\ fs (snd (cleanup_files w mp3 ogg s)) ⊆ fs s.
Proof.
  unfold cleanup_files, bind, os_path_exists, os_remove, ret.
  cbv beta iota. cbn [fs clock trace].
  repeat (match goal with
          | |- context [if bool_decide ?P then _ else _] => destruct (bool_decide P)
          | |- context [match respond ?w ?n ?c with _ => _ end] => destruct (respond w n c)
          end; cbv beta iota; cbn [fs clock trace]).
  all: first [ exists []; split; [now rewrite app_nil_r|]
             | eexists [_]; split; [reflexivity|]
             | eexists [_; _]; split; [now rewrite <- app_assoc|] ].
  all: split; [repeat constructor; eauto | cbn [snd fs]; set_solver].
Qed.

(** When the operating system carries out the removals, the block
    returns and removes the two paths and nothing else. *)
Lemma cleanup_files_returns w (mp3 ogg : string) (s : state) :
  removals_return w ->
  fst (cleanup_files w mp3 ogg s) = Ok tt
  /\ fs (snd (cleanup_files w mp3 ogg s)) = fs s ∖ {[mp3; ogg]}.
Proof.
  intros Hrem.
  unfold cleanup_files, bind, os_path_exists, os_remove, ret.
  cbv beta iota. cbn [fs clock trace].
  destruct (bool_decide (mp3 ∈ fs s)) eqn:Hm; cbv beta iota; cbn [fs clock trace].
  - destruct (Hrem (clock s) mp3) as [r ->]. cbv beta iota. cbn [fs clock trace].
    destruct (bool_decide (ogg ∈ fs s ∖ {[mp3]})) eqn:Ho; cbv beta iota;
      cbn [fs clock trace].
    + destruct (Hrem (S (clock s)) ogg) as [r' ->]. cbn [fst snd fs].
      split; [reflexivity | set_solver].
    + apply bool_decide_eq_false in Ho. cbn [fst snd fs].
      split; [reflexivity | set_solver].
  - apply bool_decide_eq_false in Hm.
    destruct (bool_decide (ogg ∈ fs s)) eqn:Ho; cbv beta iota; cbn [fs clock trace].
    + destruct (Hrem (clock s) ogg) as [r' ->]. cbn [fst snd fs].
      split; [reflexivity | set_solver].
    + apply bool_decide_eq_false in Ho. cbn [fst snd fs].
      split; [reflexivity | set_solver].
Qed.

(** A [try] whose body creates no file but the two scratch files, closed
    by the [finally] block, leaves nothing behind when the removals are
    carried out. *)
Lemma scratch_block w {A} (body : M A) (mp3 ogg : string) :
  removals_return w ->
  stable (fs_within {[mp3; ogg]}) body ->
  stable (extends_by (fun c => forall p, written_path c = Some p -> p = mp3 \/ p = ogg))
         body ->
  stable no_scratch_left (try_finally body (cleanup_files w mp3 ogg)).
Proof.
  intros Hrem Hfs Hev s. unfold try_finally.
  specialize (Hfs s). destruct (Hev s) as (evs & Ht & HF).
  destruct (body s) as [r s1]. cbn [snd] in *.
  destruct (cleanup_files_run w mp3 ogg s1) as (evs' & Ht' & HF' & _).
  destruct (cleanup_files_returns w mp3 ogg s1 Hrem) as [_ Hfs'].
  assert (Hend : forall s2, s2 = snd (cleanup_files w mp3 ogg s1) ->
                            no_scratch_left s s2).
  { intros s2 ->. unfold fs_within in Hfs. split; [rewrite Hfs'; set_solver|].
    exists (evs ++ evs'). split; [now rewrite Ht', Ht, app_assoc|].
    rewrite Forall_forall in HF, HF'. rewrite Hfs'.
    intros c p [Hc|Hc]%elem_of_app Hp.
    - destruct (HF c Hc p Hp) as [-> | ->]; set_solver.
    - destruct (HF' c Hc) as [q ->]. discriminate. }
  destruct (cleanup_files w mp3 ogg s1) as [[[]|e] s2]; now apply Hend.
Qed.

(** Decomposition of a stability goal along the structure of a handler;
    what is left are the side conditions of the calls. *)
Ltac stable_step :=
  lazymatch goal with
  | |- stable no_scratch_left (try_finally _ (cleanup_files _ _ _)) =>
      apply scratch_block; [try assumption | | ]
  | |- stable no_scratch_left (emit _) => apply emit_no_scratch
  | |- stable no_scratch_left (call _ _) => apply call_no_scratch
  | |- stable no_scratch_left (is_allowed _ _ _) => apply is_allowed_no_scratch
  | |- stable ?R (bind (ret ?a) ?k) => change (stable R (k a))
  | |- stable _ (bind _ _) => apply stable_bind; [apply _ | | intros ?]
  | |- stable _ (try_except _ _) => apply stable_try_except; [apply _ | | intros ?]
  | |- stable _ (try_finally _ _) => apply stable_try_finally; [apply _ | | ]
  | |- stable _ (ret _) => apply stable_ret; apply _
  | |- stable _ (raise _) => apply stable_raise; apply _
  | |- stable _ (os_path_exists _) => apply os_path_exists_stable; apply _
  | |- stable (extends_by _) (emit _) => apply emit_extends
  | |- stable (extends_by _) (call _ _) => apply call_extends
  | |- stable (extends_by _) (os_remove _ _) => apply os_remove_extends
  | |- stable (fs_within _) (emit _) => apply emit_fs
  | |- stable (fs_within _) (call _ _) => apply call_fs
  | |- stable (fs_within _) (os_remove _ _) => apply os_remove_fs
  | |- stable (extends_by _) (is_allowed _ _ _) => apply is_allowed_extends
  | |- stable (fs_within _) (is_allowed _ _ _) => apply is_allowed_fs
  | |- stable _ (if ?b then _ else _) => destruct b
  | |- stable _ (match ?x with Some _ => _ | None => _ end) => destruct x
  | |- stable _ (send_message _ _ _ _ _ _) => unfold send_message
  | |- stable _ (send_disallowed_message _ _) => unfold send_disallowed_message
  | |- stable _ (deny _ _ _) => unfold deny
  | |- stable _ (cleanup_files _ _ _) => unfold cleanup_files
  | |- stable _ (fetch_audio _ _ _ _) => unfold fetch_audio
  | |- stable _ (file_unique_id_of _) => unfold file_unique_id_of
  end.

Ltac stable_steps := repeat (stable_step; cbv beta iota zeta).

(** After the policy allowed the event, a guarded handler does not
    evaluate it again. *)
Lemma handle_body_no_policy h w config update s s1 :
  is_allowed w config update s = (Ok true, s1) ->
  extends_by (fun c => c <> IsAllowed) s1 (snd (handle h w config update s)).
Proof.
  intros Hp. destruct h; cbn [handle]; unfold reset, image, transcribe, prompt;
    rewrite (bind_ok _ _ _ _ _ Hp); cbn [negb].
  all: match goal with |- extends_by ?P ?s (snd (?m ?s)) =>
         generalize s; change (stable (extends_by P) m) end.
  all: stable_steps; discriminate.
Qed.

Lemma count_occ_absent (x : event) (l : list event) :
  Forall (fun c => c <> x) l -> count_occ event_eq_dec l x = 0.
Proof.
  intros HF. apply count_occ_not_In. intros Hin.
  rewrite Forall_forall in HF. apply (HF x); [|reflexivity].
  now apply list_elem_of_In.
Qed.

(** C2: each guarded handler (reset, image, transcribe, prompt) evaluates
    the access policy exactly once, and first: its trace is the trace of
    [is_allowed] on the same event (the marker, then only membership queries
    and log lines) followed by the rest of the handler, and the marker occurs
    once in the whole trace.  When the policy denies, the rest is the warning
    and the denial message and nothing else; when the policy evaluation
    raises, the rest is empty. *)
Theorem policy_evaluated_once_and_first (h : guarded) (w : world) (config : Config)
    (update : Update) (files : gset string) :
  exists policy rest,
    trace (snd (is_allowed w config update (init files))) = IsAllowed :: policy
    /\ Forall (fun c => policy_event c /\ c <> IsAllowed) policy
    /\ trace (snd (handle h w config update (init files))) = IsAllowed :: policy ++ rest
    /\ count_occ event_eq_dec (trace (snd (handle h w config update (init files))))
         IsAllowed = 1
    /\ (fst (is_allowed w config update (init files)) = Ok false ->
        rest = [denial_warning update (denied_action h); denial update])
    /\ (forall e, fst (is_allowed w config update (init files)) = Raise e ->
        rest = [] /\ fst (handle h w config update (init files)) = Raise e).
Proof.
  destruct (is_allowed_shape w config update (init files)) as (policy & Ht & HF & _).
  cbn [init trace app] in Ht.
  assert (Hcount : forall rest, Forall (fun c => c <> IsAllowed) rest ->
            count_occ event_eq_dec (IsAllowed :: policy ++ rest) IsAllowed = 1).
  { intros rest Hrest. rewrite count_occ_cons_eq by reflexivity.
    rewrite count_occ_app, !count_occ_absent; [reflexivity | exact Hrest |].
    eapply Forall_impl; [exact HF|]. now intros c [_ Hc]. }
  destruct (is_allowed w config update (init files)) as [[[]|e] s1] eqn:Hp;
    cbn [fst snd] in *.
  - destruct (handle_body_no_policy h _ _ _ _ _ Hp) as (rest & Hrest & HFrest).
    exists policy, rest. rewrite Hrest, Ht. cbn [app].
    repeat split; auto; try discriminate.
  - exists policy, [denial_warning update (denied_action h); denial update].
    rewrite (handle_denied _ _ _ _ _ _ Hp). cbn [snd trace]. rewrite Ht. cbn [app].
    repeat split; auto; discriminate.
  - exists policy, []. rewrite (handle_policy_raises _ _ _ _ _ _ _ Hp).
    cbn [fst snd]. rewrite Ht, app_nil_r.
    repeat split; auto; try discriminate.
    + rewrite <- (app_nil_r policy). apply Hcount. constructor.
    + congruence.
Qed.


(** ** [image] *)

Lemma image_generates_only w config update :
  stable (extends_by (generates_only (image_query_of (text (message update)))))
         (image w config update).
Proof.
  unfold image. stable_steps; try (intros p Hp; discriminate).
  - now destruct c.
  - intros p [= <-]. reflexivity.
Qed.

(** C7: an authorized [/image] event whose text, with the command token
    removed and stripped, is empty (in particular [/image] followed by
    nothing but whitespace) makes no call to the OpenAI helper: after the
    policy the handler logs the request, sends the one message
    [Please provide a prompt!] and stops. *)
Theorem image_without_prompt_asks_for_one (w : world) (config : Config)
    (update : Update) (files : gset string) (s1 : state) :
  is_allowed w config update (init files) = (Ok true, s1) ->
  image_query_of (text (message update)) = "" ->
  (forall ws, PyStr.all_space ws = true -> image_query_of ("/image" +:+ ws) = "")
  /\ image w config update (init files)
     = (match respond w (clock s1)
                (SendMessage (chat_id (effective_chat update))
                             "Please provide a prompt!" None false None) with
        | Ok _ => Ok tt
        | Raise e => Raise e
        end,
        State (S (clock s1))
              (trace s1
               ++ [Logging "info" ("New image generation request received from user "
                                   +:+ user_name (from_user (message update)));
                   SendMessage (chat_id (effective_chat update))
                               "Please provide a prompt!" None false None])
              (fs s1)).
Proof.
  intros Hp Hq. split.
  - intros ws Hws. unfold image_query_of.
    rewrite replace_image_head, replace_image_spaces by exact Hws.
    now apply strip_spaces.
  - unfold image. rewrite (bind_ok _ _ _ _ _ Hp). cbn [negb]. rewrite Hq.
    cbn [String.eqb]. unfold send_message, bind, emit, call, ret. cbn.
    destruct (respond w (clock s1) _); now rewrite <- app_assoc.
Qed.

Lemma image_without_prompt_asks_for_one_witness :
  image_query_of ("/image" +:+ "   ") = ""
  /\ image w_quiet cfg_open (text_update alice direct_chat "/image   ") (init ∅)
     = (Ok tt,
        State 1 [IsAllowed;
                 Logging "info" "New image generation request received from user @alice";
                 SendMessage 42 "Please provide a prompt!" None false None] ∅).
Proof.
  destruct (image_without_prompt_asks_for_one w_quiet cfg_open
              (text_update alice direct_chat "/image   ") ∅ (State 0 [IsAllowed] ∅))
    as [H1 H2]; [reflexivity | reflexivity |].
  split; [apply H1; reflexivity | exact H2].
Defined.

(** The policy calls no backend. *)
Lemma policy_trace_no_backend w config update files :
  List.filter backend_call (trace (snd (is_allowed w config update (init files)))) = [].
Proof.
  destruct (is_allowed_shape w config update (init files)) as (evs & -> & HF & _).
  cbn. induction HF as [|c evs [Hc _] _ IH]; [reflexivity|].
  destruct c; cbn in *; solve [exact IH | contradiction].
Qed.

(** C10: the prompt that [image] passes to the image generation is the
    whole message text with [/image] replaced by nothing and then stripped.
    No call of the handler generates an image for another prompt; when the
    event is authorized, that prompt is not empty and the presence indicator
    is delivered, the image generation is the one backend call, made with
    that prompt.  The replacement removes an occurrence of [/image] wherever
    it stands, so one inside the prompt body disappears like the leading
    command token. *)
Theorem image_prompt_drops_every_command_token (w : world) (config : Config)
    (update : Update) (files : gset string) (s1 : state) (v : string) :
  is_allowed w config update (init files) = (Ok true, s1) ->
  PyStr.strip (PyStr.replace "/image" "" (text (message update))) <> "" ->
  respond w (clock s1) (SendChatAction (chat_id (effective_chat update)) "upload_photo")
    = Ok v ->
  List.filter backend_call (trace (snd (image w config update (init files))))
    = [GenerateImage (PyStr.strip (PyStr.replace "/image" "" (text (message update))))]
  /\ (forall w' config' files' p,
        GenerateImage p ∈ trace (snd (image w' config' update (init files'))) ->
        p = PyStr.strip (PyStr.replace "/image" "" (text (message update))))
  /\ (forall a b,
        PyStr.replace "/image" "" (a +:+ "/image" +:+ b)
        = PyStr.replace "/image" "" a +:+ PyStr.replace "/image" "" b).
Proof.
  intros Hp Hq Hv. split; [|split].
  - pose proof (policy_trace_no_backend w config update files) as Hnb.
    rewrite Hp in Hnb. cbn [snd] in Hnb.
    unfold image. rewrite (bind_ok _ _ _ _ _ Hp). cbn [negb].
    fold (image_query_of (text (message update))) in *.
    apply String.eqb_neq in Hq. rewrite Hq.
    unfold send_message, try_except, bind, emit, call, ret. cbn. rewrite Hv.
    repeat (match goal with
            | |- context [match respond ?w ?n ?c with _ => _ end] =>
                destruct (respond w n c)
            | |- context [if is_Exception ?e then _ else _] => destruct e
            end; cbn);
      rewrite !List.filter_app, Hnb; reflexivity.
  - intros w' config' files' p Hin.
    pose proof (stable_from_init _ _ files' (image_generates_only w' config' update)) as HF.
    rewrite Forall_forall in HF. now apply (HF _ Hin).
  - apply replace_image_app.
Qed.

Lemma image_prompt_drops_every_command_token_witness :
  List.filter backend_call
    (trace (snd (image w_quiet cfg_open
                   (text_update alice direct_chat "/image a sign saying /image here")
                   (init ∅))))
  = [GenerateImage "a sign saying  here"].
Proof.
  destruct (image_prompt_drops_every_command_token w_quiet cfg_open
              (text_update alice direct_chat "/image a sign saying /image here")
              ∅ (State 0 [IsAllowed] ∅) "ok") as [H _].
  - reflexivity.
  - discriminate.
  - reflexivity.
  - exact H.
Defined.

(** ** [prompt] *)

(** The sibling handler: when the image generation raises an [Exception],
    [image] catches it and replies to the original message with its text. *)
Lemma image_backend_failure_is_reported (w : world) (config : Config)
    (update : Update) (files : gset string) (s1 : state) (v msg : string) :
  is_allowed w config update (init files) = (Ok true, s1) ->
  image_query_of (text (message update)) <> "" ->
  respond w (clock s1) (SendChatAction (chat_id (effective_chat update)) "upload_photo")
    = Ok v ->
  respond w (S (clock s1)) (GenerateImage (image_query_of (text (message update))))
    = Raise (Exception msg) ->
  trace (snd (image w config update (init files)))
  = trace s1
    ++ [Logging "info" ("New image generation request received from user "
                        +:+ user_name (from_user (message update)));
        SendChatAction (chat_id (effective_chat update)) "upload_photo";
        GenerateImage (image_query_of (text (message update)));
        Logging "exception" msg;
        SendMessage (chat_id (effective_chat update))
                    ("Failed to generate image: " +:+ msg)
                    (Some (message_id (message update))) false None].
Proof.
  intros Hp Hq Hv He.
  unfold image. rewrite (bind_ok _ _ _ _ _ Hp). cbn [negb].
  apply String.eqb_neq in Hq. rewrite Hq.
  unfold send_message, try_except, bind, emit, call, ret.
  cbn [clock trace fs]. rewrite Hv. cbn [clock trace fs]. rewrite He.
  cbn [is_Exception clock trace fs exn_str].
  case_respond; cbn [snd trace]; now rewrite <- !app_assoc.
Qed.

(** C4, on the code: when the chat completion raises, [prompt] does not
    catch it.  For an authorized event whose typing indicator was delivered,
    the handler ends with the backend's exception right after the backend
    call: nothing is sent to the user. *)
Theorem prompt_backend_failure_escapes (w : world) (config : Config)
    (update : Update) (files : gset string) (s1 : state) (v : string) (e : exn) :
  is_allowed w config update (init files) = (Ok true, s1) ->
  respond w (clock s1) (SendChatAction (chat_id (effective_chat update)) "typing") = Ok v ->
  respond w (S (clock s1))
    (GetChatResponse (chat_id (effective_chat update)) (text (message update))) = Raise e ->
  prompt w config update (init files)
  = (Raise e,
     State (S (S (clock s1)))
           (trace s1
            ++ [Logging "info" ("New message received from user "
                                +:+ user_name (from_user (message update)));
                SendChatAction (chat_id (effective_chat update)) "typing";
                GetChatResponse (chat_id (effective_chat update)) (text (message update))])
           (fs s1)).
Proof.
  intros Hp Hv He.
  unfold prompt. rewrite (bind_ok _ _ _ _ _ Hp). cbn [negb].
  unfold send_message, bind, emit, call, ret. cbn. rewrite Hv, He. cbn.
  now rewrite <- !app_assoc.
Qed.

Lemma prompt_backend_failure_escapes_witness :
  prompt w_chat_error cfg_open (text_update alice direct_chat "hello") (init ∅)
  = (Raise (Exception "Rate limit exceeded"),
     State 2 [IsAllowed;
              Logging "info" "New message received from user @alice";
              SendChatAction 42 "typing";
              GetChatResponse 42 "hello"] ∅).
Proof.
  apply (prompt_backend_failure_escapes w_chat_error cfg_open
           (text_update alice direct_chat "hello") ∅ (State 0 [IsAllowed] ∅) "ok"
           (Exception "Rate limit exceeded")); reflexivity.
Defined.


(** ** [transcribe] *)

(** C1, on the code: the [finally] block does not clean up on every
    exit.  A directory named [abc123.mp3] exists when a voice note with
    unique id [abc123] arrives.  The voice note is downloaded to
    [abc123.ogg]; the export to [abc123.mp3] raises, which is reported to the
    user; in the [finally] block [os.path.exists] finds [abc123.mp3] and
    [os.remove] raises on it, so the block is left before [abc123.ogg] is
    looked at: the handler ends with that exception and the file
    [abc123.ogg], which this call created, stays on local storage. *)
Theorem cleanup_stops_at_failing_remove :
  transcribe w_mp3_is_directory cfg_open (media_update (Some voice_abc) None)
    (init {["abc123.mp3"]})
  = (Raise (Exception "[Errno 21] Is a directory: 'abc123.mp3'"),
     State 7
       [IsAllowed;
        Logging "info" "New transcribe request received from user @alice";
        SendChatAction 42 "typing";
        GetFile "F-voice";
        DownloadToDrive "ok" "abc123.ogg";
        FromOgg "abc123.ogg";
        Export "ok" "abc123.mp3" "mp3";
        Logging "exception" "[Errno 21] Is a directory: 'abc123.mp3'";
        SendMessage 42
          "Failed to transcribe text: [Errno 21] Is a directory: 'abc123.mp3'"
          (Some 7%Z) false None;
        OsRemove "abc123.mp3"]
       {["abc123.mp3"; "abc123.ogg"]}).
Proof. vm_compute. reflexivity. Qed.

(** *** The pipeline steps *)

Lemma filter_pipeline_none (evs : list event) :
  Forall (fun c => pipeline c = false) evs -> List.filter pipeline evs = [].
Proof.
  induction 1 as [|c evs Hc _ IH]; [reflexivity|]. cbn. now rewrite Hc.
Qed.

Lemma filter_pipeline_extends (s s' : state) :
  extends_by (fun c => pipeline c = false) s s' ->
  List.filter pipeline (trace s') = List.filter pipeline (trace s).
Proof.
  intros (evs & -> & HF).
  now rewrite List.filter_app, (filter_pipeline_none _ HF), app_nil_r.
Qed.

Lemma policy_trace_no_pipeline w config update files :
  List.filter pipeline (trace (snd (is_allowed w config update (init files)))) = [].
Proof.
  rewrite (filter_pipeline_extends (init files)); [reflexivity|].
  apply is_allowed_extends. intros c Hc. now destruct c.
Qed.

(** The [finally] block and the [except] handler add no pipeline step. *)
Lemma try_finally_pipeline w {A} (body : M A) (mp3 ogg : string) (s : state) :
  List.filter pipeline (trace (snd (try_finally body (cleanup_files w mp3 ogg) s)))
  = List.filter pipeline (trace (snd (body s))).
Proof.
  unfold try_finally. destruct (body s) as [r s1].
  destruct (cleanup_files_run w mp3 ogg s1) as (evs & Ht & HF & _).
  assert (Hend : List.filter pipeline (trace (snd (cleanup_files w mp3 ogg s1)))
                 = List.filter pipeline (trace s1)).
  { rewrite Ht, List.filter_app, (filter_pipeline_none evs), app_nil_r; [reflexivity|].
    eapply Forall_impl; [exact HF|]. now intros c [p ->]. }
  destruct (cleanup_files w mp3 ogg s1) as [[[]|e] s2]; exact Hend.
Qed.

Lemma try_except_pipeline {A} (body : M A) (handler : exn -> M A) (s : state) :
  (forall e, stable (extends_by (fun c => pipeline c = false)) (handler e)) ->
  List.filter pipeline (trace (snd (try_except body handler s)))
  = List.filter pipeline (trace (snd (body s))).
Proof.
  intros Hh. unfold try_except. destruct (body s) as [[a|e] s1]; [reflexivity|].
  destruct (is_Exception e); [|reflexivity]. cbn [snd].
  apply filter_pipeline_extends, Hh.
Qed.

Ltac absurd_raise Hret :=
  match goal with
  | H : respond ?w ?n ?c = Raise _ |- _ =>
      let x := fresh in let Hx := fresh in
      destruct (Hret n c eq_refl) as [x Hx]; congruence
  end.

Section Steps.

Variable w : world.
Variable update : Update.

Let chat := chat_id (effective_chat update).
Let mid := message_id (message update).

#[local] Arguments fs_after : simpl never.

(** The [try] body on a voice note: the steps of a run are an initial
    part of [voice_pipeline], and all of it when the transport returns. *)
Lemma voice_steps (v : Attachment) (s : state) :
  voice (message update) = Some v ->
  exists f seg l,
    List.filter pipeline
      (trace (snd ((fetch_audio w update (file_unique_id v +:+ ".ogg")
                                         (file_unique_id v +:+ ".mp3") ;;
                    transcript <- call w (OpenAITranscribe (file_unique_id v +:+ ".mp3")) ;;
                    send_message w chat transcript (Some mid) false (Some "Markdown")) s)))
    = List.filter pipeline (trace s) ++ l
    /\ l `prefix_of` voice_pipeline v f seg
    /\ (transport_returns w -> l = voice_pipeline v f seg).
Proof.
  intros Hv.
  exists (match respond w (clock s) (GetFile (file_id v)) with
          | Ok f => f | Raise _ => "" end).
  exists (match respond w (S (S (clock s))) (FromOgg (file_unique_id v +:+ ".ogg")) with
          | Ok g => g | Raise _ => "" end).
  unfold fetch_audio, send_message, voice_pipeline. rewrite Hv.
  unfold bind, call, ret. cbn [clock trace fs].
  repeat (case_respond; cbn [clock trace fs fst snd]).
  all: eexists; rewrite ?List.filter_app; cbn [List.filter pipeline app];
    rewrite <- ?app_assoc; cbn [app];
    (split; [reflexivity|]);
    (split; [eexists; cbn [app]; reflexivity
            | intros Hret; first [reflexivity | absurd_raise Hret]]).
Qed.

(** The [try] body on an audio attachment without a voice note. *)
Lemma audio_steps (a : Attachment) (s : state) :
  voice (message update) = None ->
  audio (message update) = Some a ->
  exists f l,
    List.filter pipeline
      (trace (snd ((fetch_audio w update (file_unique_id a +:+ ".ogg")
                                         (file_unique_id a +:+ ".mp3") ;;
                    transcript <- call w (OpenAITranscribe (file_unique_id a +:+ ".mp3")) ;;
                    send_message w chat transcript (Some mid) false (Some "Markdown")) s)))
    = List.filter pipeline (trace s) ++ l
    /\ l `prefix_of` audio_pipeline a f
    /\ (transport_returns w -> l = audio_pipeline a f).
Proof.
  intros Hv Ha.
  exists (match respond w (clock s) (GetFile (file_id a)) with
          | Ok f => f | Raise _ => "" end).
  unfold fetch_audio, send_message, audio_pipeline. rewrite Hv, Ha.
  unfold bind, call, ret. cbn [clock trace fs].
  repeat (case_respond; cbn [clock trace fs fst snd]).
  all: eexists; rewrite ?List.filter_app; cbn [List.filter pipeline app];
    rewrite <- ?app_assoc; cbn [app];
    (split; [reflexivity|]);
    (split; [eexists; cbn [app]; reflexivity
            | intros Hret; first [reflexivity | absurd_raise Hret]]).
Qed.

(** The [except] handler of [transcribe] adds no pipeline step. *)
Lemma transcribe_handler_no_pipeline (e : exn) :
  stable (extends_by (fun c => pipeline c = false))
    (emit (Logging "exception" (exn_str e)) ;;
     send_message w chat ("Failed to transcribe text: " +:+ exn_str e)
       (Some mid) false None).
Proof. stable_steps; reflexivity. Qed.

End Steps.

(** C8: for an authorized voice note with unique id [u], the pipeline
    steps of [transcribe] are, in this order, the fetch of the voice file,
    its download to [u.ogg], the decoding of [u.ogg], the export to [u.mp3]
    and the transcription of [u.mp3]: every run is an initial part of this
    sequence, and a run in which the transport and the transcoder return is
    all of it.  For an audio attachment (and no voice note) the sequence is
    the fetch, the download to [u.mp3] and the transcription of [u.mp3], with
    no decoding or export. *)
Theorem transcription_working_paths (w : world) (config : Config)
    (update : Update) (files : gset string) (s1 : state) :
  is_allowed w config update (init files) = (Ok true, s1) ->
  (forall v, voice (message update) = Some v ->
     exists f seg,
       List.filter pipeline (trace (snd (transcribe w config update (init files))))
         `prefix_of` voice_pipeline v f seg
       /\ (transport_returns w ->
           List.filter pipeline (trace (snd (transcribe w config update (init files))))
           = voice_pipeline v f seg))
  /\ (forall a, voice (message update) = None -> audio (message update) = Some a ->
      exists f,
        List.filter pipeline (trace (snd (transcribe w config update (init files))))
          `prefix_of` audio_pipeline a f
        /\ (transport_returns w ->
            List.filter pipeline (trace (snd (transcribe w config update (init files))))
            = audio_pipeline a f)).
Proof.
  intros Hp.
  pose proof (policy_trace_no_pipeline w config update files) as Hnp.
  rewrite Hp in Hnp. cbn [snd] in Hnp.
  split.
  - intros v Hv.
    destruct (voice_steps w update v
                (State (S (clock s1))
                   (trace s1
                    ++ [Logging "info" ("New transcribe request received from user "
                                        +:+ user_name (from_user (message update)))]
                    ++ [SendChatAction (chat_id (effective_chat update)) "typing"])
                   (fs s1)) Hv) as (f & seg & l & Heq & Hpre & Hall).
    exists f, seg.
    unfold transcribe. rewrite (bind_ok _ _ _ _ _ Hp). cbn [negb]. rewrite Hv.
    cbn [truthy negb andb]. rewrite bind_emit, bind_call. cbn zeta.
    case_respond.
    + rewrite bind_ret, try_finally_pipeline, try_except_pipeline
        by apply transcribe_handler_no_pipeline.
      cbn [fs_after written_path clock trace fs]. rewrite <- app_assoc.
      rewrite Heq. cbn [trace]. rewrite !List.filter_app, Hnp. cbn.
      split; [exact Hpre | exact Hall].
    + cbn [snd trace]. rewrite !List.filter_app, Hnp. cbn.
      split; [apply prefix_nil | intros Hret; absurd_raise Hret].
  - intros a Hv Ha.
    destruct (audio_steps w update a
                (State (S (clock s1))
                   (trace s1
                    ++ [Logging "info" ("New transcribe request received from user "
                                        +:+ user_name (from_user (message update)))]
                    ++ [SendChatAction (chat_id (effective_chat update)) "typing"])
                   (fs s1)) Hv Ha) as (f & l & Heq & Hpre & Hall).
    exists f.
    unfold transcribe. rewrite (bind_ok _ _ _ _ _ Hp). cbn [negb]. rewrite Hv, Ha.
    cbn [truthy negb andb]. rewrite bind_emit, bind_call. cbn zeta.
    case_respond.
    + unfold file_unique_id_of.
      rewrite bind_ret, try_finally_pipeline, try_except_pipeline
        by apply transcribe_handler_no_pipeline.
      cbn [fs_after written_path clock trace fs]. rewrite <- app_assoc.
      rewrite Heq. cbn [trace]. rewrite !List.filter_app, Hnp. cbn.
      split; [exact Hpre | exact Hall].
    + cbn [snd trace]. rewrite !List.filter_app, Hnp. cbn.
      split; [apply prefix_nil | intros Hret; absurd_raise Hret].
Qed.

Lemma w_quiet_returns : transport_returns w_quiet.
Proof. intros n c _. destruct c; eexists; reflexivity. Qed.

Lemma transcription_working_paths_witness :
  (exists f seg,
     List.filter pipeline
       (trace (snd (transcribe w_quiet cfg_open (media_update (Some voice_abc) None)
                      (init ∅))))
     = [GetFile "F-voice"; DownloadToDrive f "abc123.ogg"; FromOgg "abc123.ogg";
        Export seg "abc123.mp3" "mp3"; OpenAITranscribe "abc123.mp3"])
  /\ (exists f,
        List.filter pipeline
          (trace (snd (transcribe w_quiet cfg_open (media_update None (Some audio_xyz))
                         (init ∅))))
        = [GetFile "F-audio"; DownloadToDrive f "xyz.mp3"; OpenAITranscribe "xyz.mp3"]).
Proof.
  split.
  - destruct (transcription_working_paths w_quiet cfg_open
                (media_update (Some voice_abc) None) ∅ (State 0 [IsAllowed] ∅) eq_refl)
      as [Hvoice _].
    destruct (Hvoice voice_abc eq_refl) as (f & seg & _ & Hall).
    exists f, seg. exact (Hall w_quiet_returns).
  - destruct (transcription_working_paths w_quiet cfg_open
                (media_update None (Some audio_xyz)) ∅ (State 0 [IsAllowed] ∅) eq_refl)
      as [_ Haudio].
    destruct (Haudio audio_xyz eq_refl eq_refl) as (f & _ & Hall).
    exists f. exact (Hall w_quiet_returns).
Defined.

(** The policy does not look at the attachments. *)
Lemma group_scan_without_audio w update (l : list string) (s : state) :
  group_scan w (without_audio update) l s = group_scan w update l s.
Proof.
  revert s. induction l as [|user rest IH]; intros s; [reflexivity|].
  cbn [group_scan].
  change (is_user_in_group w (without_audio update) user)
    with (is_user_in_group w update user).
  unfold bind. destruct (is_user_in_group w update user s) as [[[]|e] s1];
    [reflexivity | apply IH | reflexivity].
Qed.

Lemma is_allowed_without_audio w config update (s : state) :
  is_allowed w config (without_audio update) s = is_allowed w config update s.
Proof.
  unfold is_allowed, bind, is_group_chat. cbn [emit without_audio effective_chat
    message from_user].
  destruct (String.eqb _ "*"); [reflexivity|].
  destruct (bool_decide _); [reflexivity|].
  destruct (bool_decide _); [|reflexivity].
  apply group_scan_without_audio.
Qed.

(** With a voice note present, every event of [transcribe] works on it. *)
Lemma transcribe_works_on_voice w config update v :
  voice (message update) = Some v ->
  stable (extends_by (works_on v)) (transcribe w config update).
Proof.
  intros Hv. unfold transcribe, fetch_audio. rewrite Hv. cbv beta iota zeta.
  stable_steps; cbn; auto.
  intros c Hc. now destruct c.
Qed.

(** The pipeline of an authorized voice note: an initial part of
    [voice_pipeline] on every run, all of it when the transport returns. *)
Lemma voice_note_pipeline w config update files s1 v :
  is_allowed w config update (init files) = (Ok true, s1) ->
  voice (message update) = Some v ->
  exists f seg,
    List.filter pipeline (trace (snd (transcribe w config update (init files))))
      `prefix_of` voice_pipeline v f seg
    /\ (transport_returns w ->
        List.filter pipeline (trace (snd (transcribe w config update (init files))))
        = voice_pipeline v f seg).
Proof.
  intros Hp Hv.
  pose proof (policy_trace_no_pipeline w config update files) as Hnp.
  rewrite Hp in Hnp. cbn [snd] in Hnp.
  destruct (voice_steps w update v
              (State (S (clock s1))
                 (trace s1
                  ++ [Logging "info" ("New transcribe request received from user "
                                      +:+ user_name (from_user (message update)))]
                  ++ [SendChatAction (chat_id (effective_chat update)) "typing"])
                 (fs s1)) Hv) as (f & seg & l & Heq & Hpre & Hall).
  exists f, seg.
  unfold transcribe. rewrite (bind_ok _ _ _ _ _ Hp). cbn [negb]. rewrite Hv.
  cbn [truthy negb andb]. rewrite bind_emit, bind_call. cbn zeta.
  case_respond.
  - rewrite bind_ret, try_finally_pipeline, try_except_pipeline
      by apply transcribe_handler_no_pipeline.
    cbn [fs_after written_path clock trace fs]. rewrite <- app_assoc.
    rewrite Heq. cbn [trace]. rewrite !List.filter_app, Hnp. cbn.
    split; [exact Hpre | exact Hall].
  - cbn [snd trace]. rewrite !List.filter_app, Hnp. cbn.
    split; [apply prefix_nil | intros Hret; absurd_raise Hret].
Qed.

(** C9: when an event carries a voice note, an audio attachment that it
    carries as well is ignored and the voice note is the one worked on.
    [transcribe] runs exactly as on the same event without the audio
    attachment; every pipeline step of the run works on the voice note (the
    fetch is of its file, the paths written, decoded and transcribed are the
    [.ogg] and [.mp3] paths named after its unique id); and, for an
    authorized event, the steps are an initial part of: fetch of the voice
    file, download to [u.ogg], decoding of [u.ogg], export to [u.mp3],
    transcription of [u.mp3], with [u] the voice note's unique id, and all
    of them when the transport and the transcoder return. *)
Theorem voice_takes_precedence (w : world) (config : Config) (update : Update)
    (files : gset string) (v : Attachment) :
  voice (message update) = Some v ->
  transcribe w config update (init files)
  = transcribe w config (without_audio update) (init files)
  /\ Forall (works_on v) (trace (snd (transcribe w config update (init files))))
  /\ (forall s1,
        is_allowed w config update (init files) = (Ok true, s1) ->
        exists f seg,
          List.filter pipeline (trace (snd (transcribe w config update (init files))))
            `prefix_of` voice_pipeline v f seg
          /\ (transport_returns w ->
              List.filter pipeline (trace (snd (transcribe w config update (init files))))
              = voice_pipeline v f seg)).
Proof.
  intros Hv. split; [|split].
  - unfold transcribe, bind. rewrite is_allowed_without_audio.
    destruct (is_allowed w config update (init files)) as [[[]|e] s1]; [|reflexivity..].
    destruct update as [[mid u t vo au] ch]. cbn in Hv. subst vo. reflexivity.
  - apply stable_from_init. now apply transcribe_works_on_voice.
  - intros s1 Hp. now apply (voice_note_pipeline w config update files s1 v).
Qed.

Lemma voice_takes_precedence_witness :
  transcribe w_quiet cfg_open (media_update (Some voice_abc) (Some audio_xyz)) (init ∅)
  = transcribe w_quiet cfg_open (media_update (Some voice_abc) None) (init ∅)
  /\ Forall (works_on voice_abc)
       (trace (snd (transcribe w_quiet cfg_open
                      (media_update (Some voice_abc) (Some audio_xyz)) (init ∅))))
  /\ exists f seg,
       List.filter pipeline
         (trace (snd (transcribe w_quiet cfg_open
                        (media_update (Some voice_abc) (Some audio_xyz)) (init ∅))))
       = [GetFile "F-voice"; DownloadToDrive f "abc123.ogg"; FromOgg "abc123.ogg";
          Export seg "abc123.mp3" "mp3"; OpenAITranscribe "abc123.mp3"].
Proof.
  destruct (voice_takes_precedence w_quiet cfg_open
              (media_update (Some voice_abc) (Some audio_xyz)) ∅ voice_abc eq_refl)
    as (Heq & Hon & Hrun).
  split; [exact Heq|]. split; [exact Hon|].
  destruct (Hrun (State 0 [IsAllowed] ∅) eq_refl) as (f & seg & _ & Hall).
  exists f, seg. exact (Hall w_quiet_returns).
Defined.

(** *** Runs on sample inputs *)

(** The fetch and transcode step alone creates both scratch files. *)
Example fetch_audio_creates_files :
  fs (snd (fetch_audio w_quiet (media_update (Some voice_abc) None)
             "abc123.ogg" "abc123.mp3" (init ∅)))
  = {["abc123.ogg"; "abc123.mp3"]}.
Proof. vm_compute. reflexivity. Qed.

(** A voice note whose export fails half-way: the failure is reported in
    reply to the message, both files are removed. *)
Example transcribe_export_fails :
  transcribe w_export_fails cfg_open (media_update (Some voice_abc) None) (init ∅)
  = (Ok tt,
     State 8
       [IsAllowed;
        Logging "info" "New transcribe request received from user @alice";
        SendChatAction 42 "typing";
        GetFile "F-voice";
        DownloadToDrive "ok" "abc123.ogg";
        FromOgg "abc123.ogg";
        Export "ok" "abc123.mp3" "mp3";
        Logging "exception" "encoder failed";
        SendMessage 42 "Failed to transcribe text: encoder failed" (Some 7%Z) false None;
        OsRemove "abc123.mp3";
        OsRemove "abc123.ogg"]
       ∅).
Proof. vm_compute. reflexivity. Qed.

(** An update with neither attachment. *)
Example transcribe_unsupported :
  transcribe w_quiet cfg_open (media_update None None) (init ∅)
  = (Ok tt,
     State 1 [IsAllowed; SendMessage 42 "Unsupported file type" (Some 7%Z) false None] ∅).
Proof. vm_compute. reflexivity. Qed.

(** The [/reset] scenario of the specification: sender 42, list [42,99]. *)
Example reset_allowed_sender :
  reset w_quiet cfg_list (text_update alice direct_chat "/reset") (init ∅)
  = (Ok tt,
     State 2 [IsAllowed;
              Logging "info" "Resetting the conversation for user @alice...";
              ResetChatHistory 42;
              SendMessage 42 "Done!" None false None] ∅).
Proof. vm_compute. reflexivity. Qed.

(** * Further properties of the handlers *)

(** ** More on the access policy *)

Section PolicyReasons.

Variable w : world.
Variable update : Update.

(** A scan that finds a member after non-members only stops there with
    [True]: it logs the member and does not query the ids after it. *)
Lemma group_scan_member_found (pre post : list string) (user st : string) (s : state) :
  (forall i u, pre !! i = Some u ->
     exists st', respond w (clock s + i) (GetMember (chat_id (effective_chat update)) u)
                 = Ok st' /\ st' ∉ member_statuses) ->
  respond w (clock s + length pre) (GetMember (chat_id (effective_chat update)) user)
    = Ok st ->
  st ∈ member_statuses ->
  group_scan w update (pre ++ user :: post) s
  = (Ok true,
     State (S (clock s + length pre))
           (trace s ++ map (GetMember (chat_id (effective_chat update))) (pre ++ [user])
            ++ [member_log user])
           (fs s)).
Proof.
  revert s. induction pre as [|u pre IH]; intros s Hpre Hst Hin.
  - cbn [app length] in *. rewrite Nat.add_0_r in *.
    rewrite group_scan_cons. cbn zeta. rewrite Hst.
    now rewrite bool_decide_eq_true_2 by exact Hin.
  - destruct (Hpre 0 u eq_refl) as (st' & Hst' & Hno). rewrite Nat.add_0_r in Hst'.
    cbn [app length]. rewrite group_scan_cons. cbn zeta. rewrite Hst'.
    rewrite bool_decide_eq_false_2 by exact Hno.
    rewrite IH; cbn [clock trace fs].
    + cbn. now rewrite <- app_assoc, Nat.add_succ_r.
    + intros i u' Hi. specialize (Hpre (S i) u' Hi).
      now rewrite Nat.add_succ_r in Hpre.
    + cbn in Hst. now rewrite Nat.add_succ_r in Hst.
    + exact Hin.
Qed.

(** Why a scan ends the way it does. *)
Lemma group_scan_reason (l : list string) (s : state) :
  match fst (group_scan w update l s) with
  | Ok true =>
      exists user n st, user ∈ l
        /\ respond w n (GetMember (chat_id (effective_chat update)) user) = Ok st
        /\ st ∈ member_statuses
  | Ok false =>
      forall user, user ∈ l ->
        exists n st, respond w n (GetMember (chat_id (effective_chat update)) user) = Ok st
                     /\ st ∉ member_statuses
  | Raise e =>
      exists user n, user ∈ l
        /\ respond w n (GetMember (chat_id (effective_chat update)) user) = Raise e
  end.
Proof.
  revert s. induction l as [|user rest IH]; intros s.
  - cbn. intros user Hu. now apply elem_of_nil in Hu.
  - rewrite group_scan_cons. cbn zeta.
    destruct (respond w (clock s) (GetMember _ user)) as [st|e] eqn:Hq.
    + destruct (bool_decide (st ∈ member_statuses)) eqn:Hm.
      * cbn. exists user, (clock s), st. apply bool_decide_eq_true in Hm.
        repeat split; [left | exact Hq | exact Hm].
      * apply bool_decide_eq_false in Hm.
        match goal with |- context [group_scan w update rest ?s1] =>
          specialize (IH s1); destruct (group_scan w update rest s1) as [[[]|e] s2] end;
          cbn [fst] in *.
        -- destruct IH as (u & n & st' & Hu & Hr & Hs). exists u, n, st'.
           repeat split; [now right | exact Hr | exact Hs].
        -- intros u [->|Hu]%elem_of_cons; [now exists (clock s), st | now apply IH].
        -- destruct IH as (u & n & Hu & Hr). exists u, n. split; [now right | exact Hr].
    + cbn. exists user, (clock s). split; [left | exact Hq].
Qed.

End PolicyReasons.

(** X4: every outcome of [is_allowed] has its reason in the code.  It
    returns [True] only for the wildcard, for a listed sender, or in a group
    where a membership query for a listed id returned administrator, member
    or creator.  It returns [False] only without wildcard, for an unlisted
    sender and, in a group, after every listed id was reported with another
    status.  It raises only what a membership query in a group raised. *)
Theorem is_allowed_outcome_has_reason (w : world) (config : Config) (update : Update)
    (s : state) :
  let ids := PyStr.split ","%char (allowed_user_ids config) in
  let sender := PyStr.str (user_id (from_user (message update))) in
  let chat := chat_id (effective_chat update) in
  match fst (is_allowed w config update s) with
  | Ok true =>
      allowed_user_ids config = "*"
      \/ sender ∈ ids
      \/ (is_group_chat update = true
          /\ exists user n st, user ∈ ids
               /\ respond w n (GetMember chat user) = Ok st /\ st ∈ member_statuses)
  | Ok false =>
      allowed_user_ids config <> "*" /\ (sender ∉ ids)
      /\ (is_group_chat update = true ->
          forall user, user ∈ ids ->
            exists n st, respond w n (GetMember chat user) = Ok st
                         /\ st ∉ member_statuses)
  | Raise e =>
      allowed_user_ids config <> "*" /\ (sender ∉ ids) /\ is_group_chat update = true
      /\ exists user n, user ∈ ids /\ respond w n (GetMember chat user) = Raise e
  end.
Proof.
  cbv zeta.
  destruct (String.eqb_spec (allowed_user_ids config) "*") as [Hw|Hw].
  { rewrite is_allowed_open by exact Hw. now left. }
  destruct (decide (PyStr.str (user_id (from_user (message update)))
                      ∈ PyStr.split ","%char (allowed_user_ids config))) as [Hl|Hl].
  { rewrite is_allowed_listed by exact Hl. right. now left. }
  destruct (is_group_chat update) eqn:Hg.
  - rewrite is_allowed_scan by assumption.
    pose proof (group_scan_reason w update
                  (PyStr.split ","%char (allowed_user_ids config)) (entered s)) as Hr.
    destruct (fst (group_scan w update _ (entered s))) as [[]|e].
    + right. right. split; [reflexivity | exact Hr].
    + repeat split; auto.
    + repeat split; auto.
  - rewrite is_allowed_direct by assumption. cbn. repeat split; auto. discriminate.
Qed.

(** X1: with the wildcard allow-list every event is allowed, without a
    membership query; no guarded handler then sends the denial message or
    queries a membership. *)
Theorem wildcard_allows_every_event (h : guarded) (w : world) (config : Config)
    (update : Update) (files : gset string) :
  allowed_user_ids config = "*" ->
  is_allowed w config update (init files) = (Ok true, State 0 [IsAllowed] files)
  /\ Forall (fun c => c <> denial update /\ forall chat user, c <> GetMember chat user)
            (trace (snd (handle h w config update (init files)))).
Proof.
  intros Hw.
  assert (Hp : is_allowed w config update (init files)
               = (Ok true, State 0 [IsAllowed] files))
    by now rewrite is_allowed_open.
  split; [exact Hp|].
  assert (Hb : extends_by
                 (fun c => c <> denial update /\ forall chat user, c <> GetMember chat user)
                 (State 0 [IsAllowed] files)
                 (snd (handle h w config update (init files)))).
  { destruct h; cbn [handle]; unfold reset, image, transcribe, prompt;
      rewrite (bind_ok _ _ _ _ _ Hp); cbn [negb].
    all: match goal with |- extends_by ?P ?s (snd (?m ?s)) =>
           generalize s; change (stable (extends_by P) m) end.
    all: stable_steps; split; discriminate. }
  destruct Hb as (evs & -> & HF). cbn [trace app].
  constructor; [split; discriminate | exact HF].
Qed.

Lemma wildcard_allows_every_event_witness :
  is_allowed w_member_error cfg_open (text_update mallory group_chat "hi") (init ∅)
  = (Ok true, State 0 [IsAllowed] ∅)
  /\ Forall (fun c => c <> denial (text_update mallory group_chat "hi")
                      /\ forall chat user, c <> GetMember chat user)
       (trace (snd (handle HPrompt w_member_error cfg_open
                      (text_update mallory group_chat "hi") (init ∅)))).
Proof.
  apply (wildcard_allows_every_event HPrompt w_member_error cfg_open
           (text_update mallory group_chat "hi") ∅).
  reflexivity.
Defined.

(** X2: outside a group, an unlisted sender is denied without any
    membership query: each guarded handler logs its warning, sends the
    denial message and does nothing else. *)
Theorem unlisted_sender_outside_group_is_denied (h : guarded) (w : world)
    (config : Config) (update : Update) (files : gset string) :
  allowed_user_ids config <> "*" ->
  PyStr.str (user_id (from_user (message update)))
    ∉ PyStr.split ","%char (allowed_user_ids config) ->
  is_group_chat update = false ->
  handle h w config update (init files)
  = (match respond w 0 (denial update) with
     | Ok _ => Ok tt
     | Raise e => Raise e
     end,
     State 1 [IsAllowed; denial_warning update (denied_action h); denial update] files).
Proof.
  intros Hw Hl Hg.
  pose proof (is_allowed_direct w config update (init files) Hw Hl Hg) as Hp.
  now rewrite (handle_denied _ _ _ _ _ _ Hp).
Qed.

Lemma unlisted_sender_outside_group_is_denied_witness :
  handle HImage w_quiet cfg_list (text_update mallory direct_chat "/image a cat") (init ∅)
  = (Ok tt,
     State 1 [IsAllowed;
              Logging "warning" "User @mallory is not allowed to generate images";
              SendMessage 42 disallowed_message None true None] ∅).
Proof.
  apply (unlisted_sender_outside_group_is_denied HImage w_quiet cfg_list
           (text_update mallory direct_chat "/image a cat") ∅).
  - discriminate.
  - absent_by_evaluation.
  - reflexivity.
Defined.

(** X3: in a group, an unlisted sender is allowed as soon as one listed
    id is reported as administrator, member or creator: when the ids
    before it were reported with other statuses, [is_allowed] queries the
    ids up to that one in list order, logs it and returns [True] without
    querying the ids after it. *)
Theorem group_with_listed_member_is_allowed (w : world) (config : Config)
    (update : Update) (files : gset string)
    (pre post : list string) (user st : string) :
  allowed_user_ids config <> "*" ->
  PyStr.str (user_id (from_user (message update)))
    ∉ PyStr.split ","%char (allowed_user_ids config) ->
  is_group_chat update = true ->
  PyStr.split ","%char (allowed_user_ids config) = pre ++ user :: post ->
  (forall i u, pre !! i = Some u ->
     exists st', respond w i (GetMember (chat_id (effective_chat update)) u) = Ok st'
                 /\ st' ∉ member_statuses) ->
  respond w (length pre) (GetMember (chat_id (effective_chat update)) user) = Ok st ->
  st ∈ member_statuses ->
  is_allowed w config update (init files)
  = (Ok true,
     State (S (length pre))
           (IsAllowed :: map (GetMember (chat_id (effective_chat update))) (pre ++ [user])
            ++ [member_log user])
           files).
Proof.
  intros Hw Hl Hg Hsplit Hpre Hst Hin.
  rewrite is_allowed_scan by assumption. rewrite Hsplit.
  rewrite (group_scan_member_found w update pre post user st); [reflexivity | | |];
    cbn [entered init clock Nat.add]; assumption.
Qed.

Lemma group_with_listed_member_is_allowed_witness :
  is_allowed w_member_99 cfg_list (text_update mallory group_chat "hi") (init ∅)
  = (Ok true,
     State 2 [IsAllowed; GetMember (-100) "42"; GetMember (-100) "99";
              Logging "info" "99 is a member. Allowing group chat message..."] ∅).
Proof.
  apply (group_with_listed_member_is_allowed w_member_99 cfg_list
           (text_update mallory group_chat "hi") ∅ ["42"] [] "99" "member").
  - discriminate.
  - absent_by_evaluation.
  - reflexivity.
  - reflexivity.
  - intros [|i] u H; [|discriminate]. injection H as <-.
    exists "left". split; [reflexivity | absent_by_evaluation].
  - reflexivity.
  - present_by_evaluation.
Defined.

(** The scan reads only the conversation and the sender of the update. *)
Lemma group_scan_same_sender_and_chat w (update update' : Update) (l : list string)
    (s : state) :
  from_user (message update) = from_user (message update') ->
  effective_chat update = effective_chat update' ->
  group_scan w update l s = group_scan w update' l s.
Proof.
  intros Hu Hc. revert s. induction l as [|user rest IH]; intros s.
  - cbn. now rewrite Hu.
  - rewrite !group_scan_cons. cbn zeta. rewrite Hc.
    destruct (respond w (clock s) _); [|reflexivity].
    destruct (bool_decide _); [reflexivity | apply IH].
Qed.

(** X5: the access decision depends on the sender and the conversation
    only: two updates with the same sender and the same conversation get the
    same outcome from [is_allowed], with the same queries, whatever their
    text and attachments. *)
Theorem is_allowed_ignores_content (w : world) (config : Config)
    (update update' : Update) (s : state) :
  from_user (message update) = from_user (message update') ->
  effective_chat update = effective_chat update' ->
  is_allowed w config update s = is_allowed w config update' s.
Proof.
  intros Hu Hc. unfold is_allowed, bind, is_group_chat. cbn [emit].
  rewrite Hu, Hc.
  destruct (String.eqb _ "*"); [reflexivity|].
  destruct (bool_decide _); [reflexivity|].
  destruct (bool_decide _); [|reflexivity].
  now apply group_scan_same_sender_and_chat.
Qed.

Lemma is_allowed_ignores_content_witness :
  is_allowed w_member_99 cfg_list (text_update mallory group_chat "/reset") (init ∅)
  = is_allowed w_member_99 cfg_list
      {| message := {| message_id := 8; from_user := mallory; text := "";
                       voice := Some voice_abc; audio := None |};
         effective_chat := group_chat |} (init ∅).
Proof.
  apply (is_allowed_ignores_content w_member_99 cfg_list
           (text_update mallory group_chat "/reset")); reflexivity.
Defined.

(** ** What the handlers do after the policy *)

(** After the policy allowed the event, a guarded handler only does what
    [handler_event] lists. *)
Lemma handle_body_events h w config update s s1 :
  is_allowed w config update s = (Ok true, s1) ->
  extends_by (handler_event update) s1 (snd (handle h w config update s)).
Proof.
  intros Hp. destruct h; cbn [handle]; unfold reset, image, transcribe, prompt;
    rewrite (bind_ok _ _ _ _ _ Hp); cbn [negb].
  all: match goal with |- extends_by ?P ?s (snd (?m ?s)) =>
         generalize s; change (stable (extends_by P) m) end.
  all: stable_steps; cbn; auto.
Qed.

(** The policy queries memberships in the conversation of the update. *)
Lemma group_scan_addressed w update (l : list string) (s : state) :
  extends_by (addressed_to update) s (snd (group_scan w update l s)).
Proof.
  revert s. induction l as [|user rest IH]; intros s.
  - eexists [_]. cbn. split; [reflexivity|]. now repeat constructor.
  - rewrite group_scan_cons. cbn zeta.
    destruct (respond w (clock s) _) as [st|e].
    + destruct (bool_decide _).
      * eexists [_; _]. cbn. split; [reflexivity|]. now repeat constructor.
      * match goal with |- context [group_scan w update rest ?s1] =>
          destruct (IH s1) as (evs & Ht & HF) end.
        exists (GetMember (chat_id (effective_chat update)) user :: evs).
        rewrite Ht. cbn. rewrite <- app_assoc. split; [reflexivity|].
        constructor; [reflexivity | exact HF].
    + eexists [_]. cbn. split; [reflexivity|]. now repeat constructor.
Qed.

Lemma is_allowed_addressed w config update :
  stable (extends_by (addressed_to update)) (is_allowed w config update).
Proof.
  intros s.
  destruct (String.eqb_spec (allowed_user_ids config) "*") as [Hw|Hw].
  { rewrite is_allowed_open by exact Hw. eexists [_]. split; [reflexivity|].
    now repeat constructor. }
  destruct (decide (PyStr.str (user_id (from_user (message update)))
                      ∈ PyStr.split ","%char (allowed_user_ids config))) as [Hl|Hl].
  { rewrite is_allowed_listed by exact Hl. eexists [_]. split; [reflexivity|].
    now repeat constructor. }
  destruct (is_group_chat update) eqn:Hg.
  - rewrite is_allowed_scan by assumption.
    destruct (group_scan_addressed w update
                (PyStr.split ","%char (allowed_user_ids config)) (entered s))
      as (evs & Ht & HF).
    exists (IsAllowed :: evs). rewrite Ht. cbn. rewrite <- app_assoc.
    split; [reflexivity|]. now constructor.
  - rewrite is_allowed_direct by assumption. eexists [_]. split; [reflexivity|].
    now repeat constructor.
Qed.

(** X16: whatever the collaborators answer, every message, photo and
    presence indicator of a guarded handler goes to the conversation of the
    update, every threaded message and photo replies to the update's
    message, and every membership query, history reset and chat completion
    names that conversation. *)
Theorem handlers_address_the_conversation (h : guarded) (w : world) (config : Config)
    (update : Update) (files : gset string) :
  Forall (addressed_to update) (trace (snd (handle h w config update (init files)))).
Proof.
  destruct (is_allowed_addressed w config update (init files)) as (evs & Ht & HF).
  cbn [init trace app] in Ht.
  destruct (is_allowed w config update (init files)) as [[[]|e] s1] eqn:Hp;
    cbn [snd] in Ht.
  - destruct (handle_body_events h _ _ _ _ _ Hp) as (rest & -> & Hrest).
    rewrite Ht. apply Forall_app. split; [exact HF|].
    eapply Forall_impl; [exact Hrest|].
    intros c Hc. destruct c; cbn in *; tauto.
  - rewrite (handle_denied _ _ _ _ _ _ Hp). cbn [snd trace]. rewrite Ht.
    apply Forall_app. split; [exact HF|]. repeat constructor; cbn; auto.
  - rewrite (handle_policy_raises _ _ _ _ _ _ _ Hp). cbn [snd]. now rewrite Ht.
Qed.

(** *** Files *)

#[global] Instance same_files_preorder : PreOrder same_files.
Proof.
  split; [now intros s|]. intros s1 s2 s3 H1 H2. unfold same_files in *. congruence.
Qed.

Lemma emit_same_files c : stable same_files (emit c).
Proof. now intros s. Qed.

Lemma call_same_files w c : written_path c = None -> stable same_files (call w c).
Proof. intros Hc s. unfold same_files, call, fs_after. cbn [snd fs]. now rewrite Hc. Qed.

Lemma is_allowed_same_files w config update :
  stable same_files (is_allowed w config update).
Proof.
  intros s. now destruct (is_allowed_shape w config update s) as (evs & _ & _ & Hfs).
Qed.

Ltac files_step :=
  first [ lazymatch goal with
          | |- stable same_files (emit _) => apply emit_same_files
          | |- stable same_files (call _ _) => apply call_same_files
          | |- stable same_files (is_allowed _ _ _) => apply is_allowed_same_files
          end
        | stable_step ].

(** X15: [reset], [image] and [prompt] leave local storage as it is,
    on every run; only [transcribe] works on files. *)
Theorem only_transcribe_touches_files (w : world) (config : Config) (update : Update)
    (s : state) :
  fs (snd (reset w config update s)) = fs s
  /\ fs (snd (image w config update s)) = fs s
  /\ fs (snd (prompt w config update s)) = fs s.
Proof.
  assert (Hr : stable same_files (reset w config update))
    by (unfold reset; repeat (files_step; cbv beta iota zeta); reflexivity).
  assert (Hi : stable same_files (image w config update))
    by (unfold image; repeat (files_step; cbv beta iota zeta); reflexivity).
  assert (Hq : stable same_files (prompt w config update))
    by (unfold prompt; repeat (files_step; cbv beta iota zeta); reflexivity).
  exact (conj (Hr s) (conj (Hi s) (Hq s))).
Qed.

(** ** Runs of [reset], [prompt] and [image] *)

(** X6: for an authorized event, [reset] asks the OpenAI helper once to
    reset the history of this conversation and then sends [Done!]; when the
    reset raises, the exception leaves the handler and no acknowledgement is
    sent. *)
Theorem reset_clears_then_acknowledges (w : world) (config : Config) (update : Update)
    (files : gset string) (s1 : state) :
  is_allowed w config update (init files) = (Ok true, s1) ->
  reset w config update (init files)
  = let chat := chat_id (effective_chat update) in
    let log := Logging "info" ("Resetting the conversation for user "
                               +:+ user_name (from_user (message update)) +:+ "...") in
    match respond w (clock s1) (ResetChatHistory chat) with
    | Ok _ =>
        (match respond w (S (clock s1)) (SendMessage chat "Done!" None false None) with
         | Ok _ => Ok tt
         | Raise e => Raise e
         end,
         State (S (S (clock s1)))
               (trace s1 ++ [log; ResetChatHistory chat;
                             SendMessage chat "Done!" None false None])
               (fs s1))
    | Raise e =>
        (Raise e, State (S (clock s1)) (trace s1 ++ [log; ResetChatHistory chat]) (fs s1))
    end.
Proof.
  intros Hp. unfold reset. rewrite (bind_ok _ _ _ _ _ Hp). cbn [negb].
  unfold send_message. rewrite bind_emit, bind_call. cbn zeta.
  cbn [clock trace fs fs_after written_path].
  case_respond; [|now rewrite <- app_assoc].
  rewrite bind_call. cbn zeta. cbn [clock trace fs fs_after written_path ret].
  case_respond; now rewrite <- !app_assoc.
Qed.

Lemma reset_clears_then_acknowledges_witness :
  reset w_quiet cfg_list (text_update alice direct_chat "/reset") (init ∅)
  = (Ok tt,
     State 2 [IsAllowed;
              Logging "info" "Resetting the conversation for user @alice...";
              ResetChatHistory 42;
              SendMessage 42 "Done!" None false None] ∅).
Proof.
  apply (reset_clears_then_acknowledges w_quiet cfg_list
           (text_update alice direct_chat "/reset") ∅ (State 0 [IsAllowed] ∅)).
  reflexivity.
Defined.

(** X14: for an authorized text message whose typing indicator is
    delivered and whose chat completion returns [r], [prompt] sends [r] in
    reply to the message, as Markdown, and nothing else. *)
Theorem prompt_replies_with_completion (w : world) (config : Config) (update : Update)
    (files : gset string) (s1 : state) (v r : string) :
  is_allowed w config update (init files) = (Ok true, s1) ->
  respond w (clock s1) (SendChatAction (chat_id (effective_chat update)) "typing") = Ok v ->
  respond w (S (clock s1))
    (GetChatResponse (chat_id (effective_chat update)) (text (message update))) = Ok r ->
  prompt w config update (init files)
  = let chat := chat_id (effective_chat update) in
    let reply := SendMessage chat r (Some (message_id (message update))) false
                             (Some "Markdown") in
    (match respond w (S (S (clock s1))) reply with
     | Ok _ => Ok tt
     | Raise e => Raise e
     end,
     State (S (S (S (clock s1))))
           (trace s1
            ++ [Logging "info" ("New message received from user "
                                +:+ user_name (from_user (message update)));
                SendChatAction chat "typing";
                GetChatResponse chat (text (message update));
                reply])
           (fs s1)).
Proof.
  intros Hp Hv Hr. unfold prompt. rewrite (bind_ok _ _ _ _ _ Hp). cbn [negb].
  unfold send_message. rewrite bind_emit, bind_call. cbn zeta.
  cbn [clock trace fs fs_after written_path]. rewrite Hv.
  rewrite bind_call. cbn zeta. cbn [clock trace fs fs_after written_path]. rewrite Hr.
  rewrite bind_call. cbn zeta. cbn [clock trace fs fs_after written_path ret].
  case_respond; now rewrite <- !app_assoc.
Qed.

Lemma prompt_replies_with_completion_witness :
  prompt w_quiet cfg_open (text_update alice direct_chat "hello") (init ∅)
  = (Ok tt,
     State 3 [IsAllowed;
              Logging "info" "New message received from user @alice";
              SendChatAction 42 "typing";
              GetChatResponse 42 "hello";
              SendMessage 42 "ok" (Some 7%Z) false (Some "Markdown")] ∅).
Proof.
  apply (prompt_replies_with_completion w_quiet cfg_open
           (text_update alice direct_chat "hello") ∅ (State 0 [IsAllowed] ∅) "ok" "ok");
    reflexivity.
Defined.

(** *** Stripped text *)

Lemma lstrip_length (s : string) : String.length (PyStr.lstrip s) <= String.length s.
Proof.
  induction s as [|c s IH]; [reflexivity|]. cbn [PyStr.lstrip].
  destruct (PyStr.isspace c); cbn [String.length]; lia.
Qed.

Lemma lstrip_idempotent (s : string) : PyStr.lstrip (PyStr.lstrip s) = PyStr.lstrip s.
Proof.
  induction s as [|c s IH]; [reflexivity|]. cbn [PyStr.lstrip].
  destruct (PyStr.isspace c) eqn:Hc; [exact IH|]. cbn [PyStr.lstrip]. now rewrite Hc.
Qed.

Lemma rstrip_cons (c : ascii) (s : string) :
  PyStr.rstrip (String c s)
  = match PyStr.rstrip s with
    | EmptyString => if PyStr.isspace c then EmptyString else String c EmptyString
    | String d r => String c (String d r)
    end.
Proof. reflexivity. Qed.

Lemma rstrip_idempotent (s : string) : PyStr.rstrip (PyStr.rstrip s) = PyStr.rstrip s.
Proof.
  induction s as [|c s IH]; [reflexivity|]. rewrite rstrip_cons.
  destruct (PyStr.rstrip s) as [|d r] eqn:Hr.
  - destruct (PyStr.isspace c) eqn:Hc; [reflexivity|]. rewrite rstrip_cons. cbn. now rewrite Hc.
  - rewrite rstrip_cons. now rewrite IH.
Qed.

(** Stripping the right end keeps a clean left end. *)
Lemma lstrip_rstrip (s : string) :
  PyStr.lstrip s = s -> PyStr.lstrip (PyStr.rstrip s) = PyStr.rstrip s.
Proof.
  destruct s as [|c s]; [reflexivity|]. cbn [PyStr.lstrip].
  destruct (PyStr.isspace c) eqn:Hc.
  - intros H. pose proof (lstrip_length s) as Hlen. rewrite H in Hlen. cbn in Hlen. lia.
  - intros _. rewrite rstrip_cons.
    destruct (PyStr.rstrip s); rewrite ?Hc; cbn [PyStr.lstrip]; now rewrite Hc.
Qed.

Lemma strip_idempotent (s : string) : PyStr.strip (PyStr.strip s) = PyStr.strip s.
Proof.
  unfold PyStr.strip.
  rewrite (lstrip_rstrip (PyStr.lstrip s)) by apply lstrip_idempotent.
  apply rstrip_idempotent.
Qed.

(** X10: [image] never asks for an image with an empty prompt, nor with
    a prompt that has whitespace at either end: every prompt it passes to the
    image generation is non-empty and unchanged by [strip]. *)
Theorem image_prompt_is_stripped_and_not_empty (w : world) (config : Config)
    (update : Update) (files : gset string) (p : string) :
  GenerateImage p ∈ trace (snd (image w config update (init files))) ->
  p <> "" /\ PyStr.strip p = p.
Proof.
  intros Hin.
  assert (H : stable (extends_by (fun c => forall q, c = GenerateImage q ->
                                            q <> "" /\ PyStr.strip q = q))
                     (image w config update)).
  { unfold image.
    destruct (String.eqb (image_query_of (text (message update))) "") eqn:Hq.
    - stable_steps; try (intros q Hc; discriminate). intros c Hc. now destruct c.
    - stable_steps; try (intros q Hc; discriminate).
      + intros c Hc. now destruct c.
      + intros q [= <-]. split; [now apply String.eqb_neq|]. apply strip_idempotent. }
  pose proof (stable_from_init _ _ files H) as HF.
  rewrite Forall_forall in HF. exact (HF _ Hin p eq_refl).
Qed.

Lemma image_prompt_is_stripped_and_not_empty_witness :
  "a cat" <> "" /\ PyStr.strip "a cat" = "a cat".
Proof.
  apply (image_prompt_is_stripped_and_not_empty w_quiet cfg_open
           (text_update alice direct_chat "/image   a cat  ") ∅ "a cat").
  vm_compute. repeat (first [left | right]).
Defined.

(** X7: for an authorized [/image] event with a prompt, once the
    uploading indicator is delivered and the image generation returns [url],
    [image] sends [url] as a photo in reply to the message; when that send
    returns, the handler is done and has sent no text. *)
Theorem image_sends_generated_photo (w : world) (config : Config) (update : Update)
    (files : gset string) (s1 : state) (v url v' : string) :
  is_allowed w config update (init files) = (Ok true, s1) ->
  image_query_of (text (message update)) <> "" ->
  respond w (clock s1) (SendChatAction (chat_id (effective_chat update)) "upload_photo")
    = Ok v ->
  respond w (S (clock s1)) (GenerateImage (image_query_of (text (message update))))
    = Ok url ->
  respond w (S (S (clock s1)))
    (SendPhoto (chat_id (effective_chat update)) (message_id (message update)) url)
    = Ok v' ->
  image w config update (init files)
  = (Ok tt,
     State (S (S (S (clock s1))))
           (trace s1
            ++ [Logging "info" ("New image generation request received from user "
                                +:+ user_name (from_user (message update)));
                SendChatAction (chat_id (effective_chat update)) "upload_photo";
                GenerateImage (image_query_of (text (message update)));
                SendPhoto (chat_id (effective_chat update))
                          (message_id (message update)) url])
           (fs s1)).
Proof.
  intros Hp Hq Hv Hg Hs.
  unfold image. rewrite (bind_ok _ _ _ _ _ Hp). cbn [negb].
  apply String.eqb_neq in Hq. rewrite Hq.
  unfold try_except. rewrite bind_emit, bind_call. cbn zeta.
  cbn [clock trace fs fs_after written_path]. rewrite Hv.
  rewrite bind_call. cbn zeta. cbn [clock trace fs fs_after written_path]. rewrite Hg.
  rewrite bind_call. cbn zeta. cbn [clock trace fs fs_after written_path ret]. rewrite Hs.
  now rewrite <- !app_assoc.
Qed.

Lemma image_sends_generated_photo_witness :
  image w_quiet cfg_open (text_update alice direct_chat "/image a cat") (init ∅)
  = (Ok tt,
     State 3 [IsAllowed;
              Logging "info" "New image generation request received from user @alice";
              SendChatAction 42 "upload_photo";
              GenerateImage "a cat";
              SendPhoto 42 7 "ok"] ∅).
Proof.
  apply (image_sends_generated_photo w_quiet cfg_open
           (text_update alice direct_chat "/image a cat") ∅ (State 0 [IsAllowed] ∅)
           "ok" "ok" "ok"); try reflexivity.
  discriminate.
Defined.

(** X8: an [Exception] raised inside the [try] of [image], by the image
    generation or by the sending of the photo, is logged and reported: the
    last thing the handler does is to send [Failed to generate image: ] with
    the exception's text, in reply to the message, and the handler's outcome
    is the outcome of that send. *)
Theorem image_reports_failure_in_try (w : world) (config : Config) (update : Update)
    (files : gset string) (s1 : state) (v msg : string) :
  is_allowed w config update (init files) = (Ok true, s1) ->
  image_query_of (text (message update)) <> "" ->
  respond w (clock s1) (SendChatAction (chat_id (effective_chat update)) "upload_photo")
    = Ok v ->
  (respond w (S (clock s1)) (GenerateImage (image_query_of (text (message update))))
     = Raise (Exception msg)
   \/ exists url,
        respond w (S (clock s1)) (GenerateImage (image_query_of (text (message update))))
          = Ok url
        /\ respond w (S (S (clock s1)))
             (SendPhoto (chat_id (effective_chat update)) (message_id (message update)) url)
           = Raise (Exception msg)) ->
  let report := SendMessage (chat_id (effective_chat update))
                            ("Failed to generate image: " +:+ msg)
                            (Some (message_id (message update))) false None in
  exists before n,
    image w config update (init files)
    = (match respond w n report with
       | Ok _ => Ok tt
       | Raise e => Raise e
       end,
       State (S n) (before ++ [Logging "exception" msg; report]) (fs s1)).
Proof.
  intros Hp Hq Hv Hfail report.
  unfold image. rewrite (bind_ok _ _ _ _ _ Hp). cbn [negb].
  apply String.eqb_neq in Hq. rewrite Hq.
  unfold try_except, send_message. rewrite bind_emit, bind_call. cbn zeta.
  cbn [clock trace fs fs_after written_path]. rewrite Hv.
  rewrite bind_call. cbn zeta. cbn [clock trace fs fs_after written_path].
  destruct Hfail as [Hg | (url & Hg & Hs)]; rewrite Hg.
  - cbn [is_Exception exn_str]. rewrite bind_emit, bind_call. cbn zeta.
    cbn [clock trace fs fs_after written_path ret]. fold report.
    exists (trace s1
            ++ [Logging "info" ("New image generation request received from user "
                                +:+ user_name (from_user (message update)));
                SendChatAction (chat_id (effective_chat update)) "upload_photo";
                GenerateImage (image_query_of (text (message update)))]),
           (S (S (clock s1))).
    case_respond; now rewrite <- !app_assoc.
  - rewrite bind_call. cbn zeta. cbn [clock trace fs fs_after written_path]. rewrite Hs.
    cbn [is_Exception exn_str]. rewrite bind_emit, bind_call. cbn zeta.
    cbn [clock trace fs fs_after written_path ret]. fold report.
    exists (trace s1
            ++ [Logging "info" ("New image generation request received from user "
                                +:+ user_name (from_user (message update)));
                SendChatAction (chat_id (effective_chat update)) "upload_photo";
                GenerateImage (image_query_of (text (message update)));
                SendPhoto (chat_id (effective_chat update))
                          (message_id (message update)) url]),
           (S (S (S (clock s1)))).
    case_respond; now rewrite <- !app_assoc.
Qed.

Lemma image_reports_failure_in_try_witness :
  exists before n,
    image w_photo_error cfg_open (text_update alice direct_chat "/image a cat") (init ∅)
    = (match respond w_photo_error n
               (SendMessage 42 ("Failed to generate image: " +:+ "Timed out")
                            (Some 7%Z) false None) with
       | Ok _ => Ok tt
       | Raise e => Raise e
       end,
       State (S n)
             (before ++ [Logging "exception" "Timed out";
                         SendMessage 42 ("Failed to generate image: " +:+ "Timed out")
                                     (Some 7%Z) false None]) ∅).
Proof.
  apply (image_reports_failure_in_try w_photo_error cfg_open
           (text_update alice direct_chat "/image a cat") ∅ (State 0 [IsAllowed] ∅)
           "ok" "Timed out").
  - reflexivity.
  - discriminate.
  - reflexivity.
  - right. exists "ok". split; reflexivity.
Defined.

(** X9: [except Exception] does not catch what is not an [Exception]:
    when the image generation ends with such an exception (a cancellation,
    an interrupt), [image] ends with it right there, without log line and
    without message to the user. *)
Theorem image_passes_non_exceptions_on (w : world) (config : Config) (update : Update)
    (files : gset string) (s1 : state) (v msg : string) :
  is_allowed w config update (init files) = (Ok true, s1) ->
  image_query_of (text (message update)) <> "" ->
  respond w (clock s1) (SendChatAction (chat_id (effective_chat update)) "upload_photo")
    = Ok v ->
  respond w (S (clock s1)) (GenerateImage (image_query_of (text (message update))))
    = Raise (BaseException msg) ->
  image w config update (init files)
  = (Raise (BaseException msg),
     State (S (S (clock s1)))
           (trace s1
            ++ [Logging "info" ("New image generation request received from user "
                                +:+ user_name (from_user (message update)));
                SendChatAction (chat_id (effective_chat update)) "upload_photo";
                GenerateImage (image_query_of (text (message update)))])
           (fs s1)).
Proof.
  intros Hp Hq Hv Hg.
  unfold image. rewrite (bind_ok _ _ _ _ _ Hp). cbn [negb].
  apply String.eqb_neq in Hq. rewrite Hq.
  unfold try_except. rewrite bind_emit, bind_call. cbn zeta.
  cbn [clock trace fs fs_after written_path]. rewrite Hv.
  rewrite bind_call. cbn zeta. cbn [clock trace fs fs_after written_path]. rewrite Hg.
  cbn [is_Exception]. now rewrite <- !app_assoc.
Qed.

Lemma image_passes_non_exceptions_on_witness :
  image (w_image_error (BaseException "cancelled")) cfg_open
    (text_update alice direct_chat "/image a cat") (init ∅)
  = (Raise (BaseException "cancelled"),
     State 2 [IsAllowed;
              Logging "info" "New image generation request received from user @alice";
              SendChatAction 42 "upload_photo";
              GenerateImage "a cat"] ∅).
Proof.
  apply (image_passes_non_exceptions_on (w_image_error (BaseException "cancelled"))
           cfg_open (text_update alice direct_chat "/image a cat") ∅
           (State 0 [IsAllowed] ∅) "ok" "cancelled"); try reflexivity.
  discriminate.
Defined.

(** ** Runs of [transcribe] *)

(** X11: an authorized update without voice note and without audio
    attachment gets the one reply [Unsupported file type]; [transcribe] then
    stops: no presence indicator, no fetch, no file. *)
Theorem transcribe_rejects_other_attachments (w : world) (config : Config)
    (update : Update) (files : gset string) (s1 : state) :
  is_allowed w config update (init files) = (Ok true, s1) ->
  voice (message update) = None ->
  audio (message update) = None ->
  transcribe w config update (init files)
  = let reply := SendMessage (chat_id (effective_chat update)) "Unsupported file type"
                             (Some (message_id (message update))) false None in
    (match respond w (clock s1) reply with
     | Ok _ => Ok tt
     | Raise e => Raise e
     end,
     State (S (clock s1)) (trace s1 ++ [reply]) (fs s1)).
Proof.
  intros Hp Hv Ha. unfold transcribe. rewrite (bind_ok _ _ _ _ _ Hp). cbn [negb].
  rewrite Hv, Ha. cbn [truthy negb andb]. unfold send_message.
  rewrite bind_call. cbn zeta. cbn [clock trace fs fs_after written_path ret].
  now case_respond.
Qed.

Lemma transcribe_rejects_other_attachments_witness :
  transcribe w_quiet cfg_open (media_update None None) (init ∅)
  = (Ok tt,
     State 1 [IsAllowed; SendMessage 42 "Unsupported file type" (Some 7%Z) false None] ∅).
Proof.
  apply (transcribe_rejects_other_attachments w_quiet cfg_open (media_update None None) ∅
           (State 0 [IsAllowed] ∅)); reflexivity.
Defined.

(** *** The effect on local storage *)

#[global] Instance fs_grows_preorder : PreOrder fs_grows.
Proof. split; unfold fs_grows; [intros s | intros s1 s2 s3]; set_solver. Qed.

Lemma emit_grows c : stable fs_grows (emit c).
Proof. intros s. unfold fs_grows. cbn [emit snd fs]. set_solver. Qed.

Lemma call_grows w c : stable fs_grows (call w c).
Proof.
  intros s. unfold fs_grows, call, fs_after. cbn [snd fs].
  destruct (written_path c); [|set_solver].
  destruct (respond w (clock s) c); [|destruct (leaves_file w (clock s))]; set_solver.
Qed.

Ltac grows_step :=
  first [ lazymatch goal with
          | |- stable fs_grows (emit _) => apply emit_grows
          | |- stable fs_grows (call _ _) => apply call_grows
          end
        | stable_step ].

Section TryBlock.

Variable w : world.
Variable update : Update.
Variables (chat mid : Z) (name : string).

(** The [try ... except] of [transcribe], for the working name [name]. *)
Let try_block : M unit :=
  try_except
    (fetch_audio w update (name +:+ ".ogg") (name +:+ ".mp3") ;;
     transcript <- call w (OpenAITranscribe (name +:+ ".mp3")) ;;
     send_message w chat transcript (Some mid) false (Some "Markdown"))
    (fun e =>
       emit (Logging "exception" (exn_str e)) ;;
       send_message w chat ("Failed to transcribe text: " +:+ exn_str e)
         (Some mid) false None).

(** It removes no file and creates none but the two scratch files. *)
Lemma try_block_files (s : state) :
  fs s ⊆ fs (snd (try_block s))
  /\ fs (snd (try_block s)) ⊆ fs s ∪ {[name +:+ ".mp3"; name +:+ ".ogg"]}.
Proof.
  split.
  - assert (H : stable fs_grows try_block)
      by (unfold try_block; repeat (grows_step; cbv beta iota zeta)).
    exact (H s).
  - assert (H : stable (fs_within {[name +:+ ".mp3"; name +:+ ".ogg"]}) try_block).
    { unfold try_block. stable_steps.
      all: try (intros p Hp; discriminate).
      all: intros p [= <-]; set_solver. }
    exact (H s).
Qed.

End TryBlock.

(** X12: once [transcribe] has got past the typing indicator, and as
    long as the operating system carries out the removals, local storage
    ends up as it was before the call minus the two paths named after the
    attachment's unique id, however the fetch, the transcoding, the
    transcription and the replies go.  A path that already had one of these
    names before the call is removed as well.  (A removal that raises
    ends the [finally] block instead.) *)
Theorem transcribe_removes_both_named_files (w : world) (config : Config)
    (update : Update) (files : gset string) (s1 : state) (a : Attachment) (v : string) :
  is_allowed w config update (init files) = (Ok true, s1) ->
  (voice (message update) = Some a
   \/ (voice (message update) = None /\ audio (message update) = Some a)) ->
  respond w (clock s1) (SendChatAction (chat_id (effective_chat update)) "typing") = Ok v ->
  removals_return w ->
  fs (snd (transcribe w config update (init files)))
  = files ∖ {[file_unique_id a +:+ ".mp3"; file_unique_id a +:+ ".ogg"]}.
Proof.
  intros Hp Hatt Hv Hrem.
  assert (Hfs : fs s1 = files).
  { destruct (is_allowed_shape w config update (init files)) as (evs & _ & _ & H).
    now rewrite Hp in H. }
  unfold transcribe. rewrite (bind_ok _ _ _ _ _ Hp). cbn [negb].
  assert (Hpresent : negb (truthy (voice (message update)))
                     && negb (truthy (audio (message update))) = false)
    by (destruct Hatt as [-> | [-> ->]]; [reflexivity | reflexivity]).
  rewrite Hpresent. rewrite bind_emit, bind_call. cbn zeta.
  cbn [clock trace fs]. rewrite Hv. cbn [fs_after written_path].
  assert (Hname : forall (k : string -> M unit) s,
             bind (match voice (message update) with
                   | Some v0 => ret (file_unique_id v0)
                   | None => file_unique_id_of (audio (message update))
                   end) k s = k (file_unique_id a) s)
    by (intros k s; destruct Hatt as [-> | [-> ->]]; reflexivity).
  rewrite Hname. unfold try_finally.
  match goal with |- context [try_except ?b ?h ?s] =>
    pose proof (try_block_files w update (chat_id (effective_chat update))
                  (message_id (message update)) (file_unique_id a) s) as [Hlo Hhi];
    cbv zeta in Hlo, Hhi;
    destruct (try_except b h s) as [r s3]
  end.
  destruct (cleanup_files_returns w (file_unique_id a +:+ ".mp3")
              (file_unique_id a +:+ ".ogg") s3 Hrem) as [_ Hclean].
  assert (Hend : fs (snd (cleanup_files w (file_unique_id a +:+ ".mp3")
                            (file_unique_id a +:+ ".ogg") s3))
                 = files ∖ {[file_unique_id a +:+ ".mp3"; file_unique_id a +:+ ".ogg"]}).
  { rewrite Hclean. cbn [snd fs] in *. rewrite <- Hfs. set_solver. }
  destruct (cleanup_files w _ _ s3) as [[[]|e] s4]; exact Hend.
Qed.

Lemma transcribe_removes_both_named_files_witness :
  fs (snd (transcribe w_export_fails cfg_open (media_update None (Some audio_xyz))
             (init {["xyz.ogg"; "notes.txt"]})))
  = {["xyz.ogg"; "notes.txt"]} ∖ {["xyz.mp3"; "xyz.ogg"]}.
Proof.
  apply (transcribe_removes_both_named_files w_export_fails cfg_open
           (media_update None (Some audio_xyz)) {["xyz.ogg"; "notes.txt"]}
           (State 0 [IsAllowed] {["xyz.ogg"; "notes.txt"]}) audio_xyz "ok").
  - reflexivity.
  - right. split; reflexivity.
  - reflexivity.
  - intros n p. now exists "ok".
Defined.

(** *** The complete run on a voice note *)

Lemma mp3_is_not_ogg (name : string) : name +:+ ".mp3" <> name +:+ ".ogg".
Proof.
  induction name as [|c name IH]; [discriminate|].
  rewrite !string_app_cons. intros [= H]. now apply IH.
Qed.

(** With both scratch files present and both removals carried out, the
    [finally] block removes the [.mp3] file and then the [.ogg] file. *)
Lemma cleanup_files_both w (mp3 ogg : string) (s : state) (r r' : string) :
  mp3 ∈ fs s -> ogg ∈ fs s -> mp3 <> ogg ->
  respond w (clock s) (OsRemove mp3) = Ok r ->
  respond w (S (clock s)) (OsRemove ogg) = Ok r' ->
  cleanup_files w mp3 ogg s
  = (Ok tt, State (S (S (clock s))) (trace s ++ [OsRemove mp3; OsRemove ogg])
                  (fs s ∖ {[mp3; ogg]})).
Proof.
  intros Hm Ho Hne Hr Hr'.
  unfold cleanup_files, bind, os_path_exists, os_remove, ret.
  cbv beta iota. cbn [fs clock trace].
  rewrite (bool_decide_eq_true_2 _ Hm). cbv beta iota. rewrite Hr.
  cbv beta iota. cbn [fs clock trace].
  rewrite bool_decide_eq_true_2 by set_solver. cbv beta iota.
  cbn [fs clock trace]. rewrite Hr'.
  rewrite <- app_assoc. do 2 f_equal. set_solver.
Qed.

Section VoiceRun.

#[local] Arguments fs_after : simpl never.

(** X13: the whole run of [transcribe] on an authorized voice note when
    the transport, the transcoder and the removals return: request log line, typing
    indicator, the five pipeline steps, then the transcript as a Markdown
    reply (or, when the transcription raised an [Exception], the log line
    and the failure report as a reply), and last the removal of the [.mp3]
    and of the [.ogg] file, in this order. *)
Theorem transcribe_voice_run (w : world) (config : Config) (update : Update)
    (files : gset string) (s1 : state) (v : Attachment) :
  is_allowed w config update (init files) = (Ok true, s1) ->
  voice (message update) = Some v ->
  transport_returns w ->
  exists f seg,
    trace (snd (transcribe w config update (init files)))
    = trace s1
      ++ [Logging "info" ("New transcribe request received from user "
                          +:+ user_name (from_user (message update)));
          SendChatAction (chat_id (effective_chat update)) "typing"]
      ++ voice_pipeline v f seg
      ++ transcript_reply update
           (respond w (clock s1 + 5) (OpenAITranscribe (file_unique_id v +:+ ".mp3")))
      ++ [OsRemove (file_unique_id v +:+ ".mp3"); OsRemove (file_unique_id v +:+ ".ogg")].
Proof.
  intros Hp Hv Hret.
  exists (match respond w (S (clock s1)) (GetFile (file_id v)) with
          | Ok f => f | Raise _ => "" end).
  exists (match respond w (S (S (S (clock s1)))) (FromOgg (file_unique_id v +:+ ".ogg")) with
          | Ok g => g | Raise _ => "" end).
  replace (clock s1 + 5) with (S (S (S (S (S (clock s1)))))) by lia.
  pose proof (mp3_is_not_ogg (file_unique_id v)) as Hne.
  unfold transcribe. rewrite (bind_ok _ _ _ _ _ Hp). cbn [negb]. rewrite Hv.
  cbn [truthy negb andb].
  unfold fetch_audio, try_finally, try_except, send_message, voice_pipeline,
    transcript_reply. rewrite Hv.
  unfold bind, call, emit, ret. cbn [clock trace fs].
  do 5 (case_respond; [|absurd_raise Hret]; cbn [clock trace fs fst snd]).
  case_respond; cbn [clock trace fs fst snd is_Exception exn_str];
    [|match goal with H : respond w _ (OpenAITranscribe _) = Raise ?e |- _ => destruct e end;
      cbn [is_Exception exn_str clock trace fs fst snd]].
  all: try (case_respond; [|absurd_raise Hret]; cbn [clock trace fs fst snd]).
  all: match goal with
       | |- context [cleanup_files ?w ?m ?o ?s] =>
           destruct (Hret (clock s) (OsRemove m) eq_refl) as [x1 Hx1];
           destruct (Hret (S (clock s)) (OsRemove o) eq_refl) as [x2 Hx2];
           rewrite (cleanup_files_both w m o s x1 x2);
           [ cbn [snd trace]; rewrite <- !app_assoc; reflexivity
           | cbn [fs fs_after written_path]; set_solver
           | cbn [fs fs_after written_path]; set_solver
           | exact Hne
           | exact Hx1
           | exact Hx2 ]
       end.
Qed.

End VoiceRun.

Lemma transcribe_voice_run_witness :
  exists f seg,
    trace (snd (transcribe w_transcribe_error cfg_open (media_update (Some voice_abc) None)
                  (init ∅)))
    = [IsAllowed]
      ++ [Logging "info" ("New transcribe request received from user " +:+ "@alice");
          SendChatAction 42 "typing"]
      ++ voice_pipeline voice_abc f seg
      ++ transcript_reply (media_update (Some voice_abc) None)
           (Raise (Exception "Invalid file format"))
      ++ [OsRemove "abc123.mp3"; OsRemove "abc123.ogg"].
Proof.
  apply (transcribe_voice_run w_transcribe_error cfg_open
           (media_update (Some voice_abc) None) ∅ (State 0 [IsAllowed] ∅) voice_abc).
  - reflexivity.
  - reflexivity.
  - intros n c Hc. destruct c; try discriminate; eexists; reflexivity.
Defined.

(** ** Calls to the OpenAI helper *)

Section Spending.

Variable w : world.

Lemma spends_weaken {A} (n n' : nat) (m : M A) : spends n m -> n <= n' -> spends n' m.
Proof. intros Hm Hle s. destruct (Hm s) as (evs & Ht & Hn). exists evs. split; [exact Ht | lia]. Qed.

Lemma spends_ret {A} (a : A) : spends 0 (ret a).
Proof. intros s. exists []. cbn. now rewrite app_nil_r. Qed.

Lemma spends_raise {A} (e : exn) : spends 0 (@raise A e).
Proof. intros s. exists []. cbn. now rewrite app_nil_r. Qed.

Lemma spends_emit (c : event) : backend_call c = false -> spends 0 (emit c).
Proof. intros Hc s. exists [c]. cbn. now rewrite Hc. Qed.

Lemma spends_call (c : event) : spends 1 (call w c).
Proof.
  intros s. exists [c]. split; [reflexivity|].
  cbn [List.filter]. destruct (backend_call c); cbn [length]; lia.
Qed.

Lemma spends_call_elsewhere (c : event) : backend_call c = false -> spends 0 (call w c).
Proof. intros Hc s. exists [c]. cbn. now rewrite Hc. Qed.

Lemma spends_os_path_exists p : spends 0 (os_path_exists p).
Proof. intros s. exists []. cbn. now rewrite app_nil_r. Qed.

Lemma spends_os_remove p : spends 0 (os_remove w p).
Proof.
  intros s. exists [OsRemove p]. unfold os_remove.
  now destruct (respond w (clock s) (OsRemove p)).
Qed.

Lemma spends_bind {A B} (n1 n2 : nat) (m : M A) (k : A -> M B) :
  spends n1 m -> (forall a, spends n2 (k a)) -> spends (n1 + n2) (bind m k).
Proof.
  intros Hm Hk s. unfold bind. destruct (Hm s) as (e1 & Ht1 & Hn1).
  destruct (m s) as [[a|e] s1]; cbn [snd] in *.
  - destruct (Hk a s1) as (e2 & Ht2 & Hn2). exists (e1 ++ e2). split.
    + now rewrite Ht2, Ht1, app_assoc.
    + rewrite List.filter_app, length_app. lia.
  - exists e1. split; [exact Ht1 | lia].
Qed.

Lemma spends_try_except {A} (n1 n2 : nat) (body : M A) (handler : exn -> M A) :
  spends n1 body -> (forall e, spends n2 (handler e)) ->
  spends (n1 + n2) (try_except body handler).
Proof.
  intros Hb Hh s. unfold try_except. destruct (Hb s) as (e1 & Ht1 & Hn1).
  destruct (body s) as [[a|e] s1]; cbn [snd] in *.
  - exists e1. split; [exact Ht1 | lia].
  - destruct (is_Exception e); cbn [snd].
    + destruct (Hh e s1) as (e2 & Ht2 & Hn2). exists (e1 ++ e2). split.
      * now rewrite Ht2, Ht1, app_assoc.
      * rewrite List.filter_app, length_app. lia.
    + exists e1. split; [exact Ht1 | lia].
Qed.

Lemma spends_try_finally {A} (n1 n2 : nat) (body : M A) (cleanup : M unit) :
  spends n1 body -> spends n2 cleanup -> spends (n1 + n2) (try_finally body cleanup).
Proof.
  intros Hb Hc s. unfold try_finally. destruct (Hb s) as (e1 & Ht1 & Hn1).
  destruct (body s) as [r s1]. cbn [snd] in *.
  destruct (Hc s1) as (e2 & Ht2 & Hn2).
  destruct (cleanup s1) as [[[]|e] s2]; cbn [snd] in *;
    (exists (e1 ++ e2); split;
     [ now rewrite Ht2, Ht1, app_assoc
     | rewrite List.filter_app, length_app; lia ]).
Qed.

Lemma spends_if {A} (n1 n2 : nat) (b : bool) (m1 m2 : M A) :
  spends n1 m1 -> spends n2 m2 -> spends (Nat.max n1 n2) (if b then m1 else m2).
Proof.
  intros H1 H2. destruct b; [apply (spends_weaken n1) | apply (spends_weaken n2)];
    auto; lia.
Qed.

Lemma spends_is_allowed config update : spends 0 (is_allowed w config update).
Proof.
  intros s. destruct (is_allowed_shape w config update s) as (evs & Ht & HF & _).
  exists (IsAllowed :: evs). split; [exact Ht|]. cbn.
  assert (Hnil : List.filter backend_call evs = []).
  { clear Ht. induction HF as [|c evs [Hc _] _ IH]; [reflexivity|].
    destruct c; cbn in *; solve [exact IH | contradiction]. }
  now rewrite Hnil.
Qed.

End Spending.

Ltac spends_step :=
  lazymatch goal with
  | |- spends _ (bind _ _) => eapply spends_bind; [|intros ?]
  | |- spends _ (try_except _ _) => eapply spends_try_except; [|intros ?]
  | |- spends _ (try_finally _ _) => eapply spends_try_finally
  | |- spends _ (if _ then _ else _) => eapply spends_if
  | |- spends _ (ret _) => apply spends_ret
  | |- spends _ (raise _) => apply spends_raise
  | |- spends _ (emit _) => apply spends_emit; reflexivity
  | |- spends _ (call _ _) =>
      first [apply spends_call_elsewhere; reflexivity | apply spends_call]
  | |- spends _ (os_path_exists _) => apply spends_os_path_exists
  | |- spends _ (os_remove _ _) => apply spends_os_remove
  | |- spends _ (is_allowed _ _ _) => apply spends_is_allowed
  | |- spends _ (send_message _ _ _ _ _ _) => unfold send_message
  | |- spends _ (send_disallowed_message _ _) => unfold send_disallowed_message
  | |- spends _ (deny _ _ _) => unfold deny
  | |- spends _ (cleanup_files _ _ _) => unfold cleanup_files
  end.

(** X17: no guarded handler calls the OpenAI helper more than once for
    one event, whatever the collaborators answer: a failed call is never
    repeated, and no event costs two backend calls. *)
Theorem at_most_one_backend_call (h : guarded) (w : world) (config : Config)
    (update : Update) (files : gset string) :
  length (List.filter backend_call (trace (snd (handle h w config update (init files)))))
  <= 1.
Proof.
  assert (H : spends 1 (handle h w config update)).
  { destruct h; cbn [handle]; unfold reset, image, transcribe, prompt, fetch_audio,
      file_unique_id_of.
    all: destruct (voice (message update)); destruct (audio (message update)).
    all: cbv beta iota zeta.
    all: (eapply spends_weaken; [repeat (spends_step; cbv beta iota zeta) | cbn; lia]). }
  destruct (H (init files)) as (evs & Ht & Hn). cbn [init trace app] in Ht.
  now rewrite Ht.
Qed.

(** ** The allow-list as a list of ids *)

Lemma pretty_N_char_digit (x : N) : sign_or_digit (pretty_N_char x) = true.
Proof. unfold pretty_N_char. now repeat case_match. Qed.

Lemma pretty_N_go_chars (x : N) (s : string) :
  all_sign_or_digit s = true -> all_sign_or_digit (pretty_N_go x s) = true.
Proof.
  revert s. induction (N.lt_wf_0 x) as [x _ IH]. intros s Hs.
  assert (x = 0 \/ 0 < x)%N as [->|Hx] by lia; [now rewrite pretty_N_go_0|].
  rewrite pretty_N_go_step by exact Hx. apply IH; [now apply N.div_lt|].
  cbn [all_sign_or_digit]. now rewrite pretty_N_char_digit.
Qed.

Lemma pretty_N_go_not_empty (x : N) (s : string) : s <> "" -> pretty_N_go x s <> "".
Proof.
  revert s. induction (N.lt_wf_0 x) as [x _ IH]. intros s Hs.
  assert (x = 0 \/ 0 < x)%N as [->|Hx] by lia; [now rewrite pretty_N_go_0|].
  rewrite pretty_N_go_step by exact Hx. apply IH; [now apply N.div_lt|]. discriminate.
Qed.

Lemma pretty_N_chars (x : N) :
  all_sign_or_digit (pretty x) = true /\ pretty x <> "".
Proof.
  unfold pretty, pretty_N. case_decide; [split; [reflexivity|discriminate]|].
  split; [now apply pretty_N_go_chars|].
  assert (0 < x)%N as Hx by lia. rewrite pretty_N_go_step by exact Hx.
  apply pretty_N_go_not_empty. discriminate.
Qed.

(** [str] of an [int] is a non-empty string of digits, with a minus sign
    in front for a negative number. *)
Lemma str_chars (n : Z) : all_sign_or_digit (PyStr.str n) = true /\ PyStr.str n <> "".
Proof.
  unfold PyStr.str, pretty, pretty_Z. destruct n as [|p|p].
  - split; [reflexivity | discriminate].
  - apply pretty_N_chars.
  - destruct (pretty_N_chars (Npos p)) as [Hc _]. split; [exact Hc | discriminate].
Qed.

Lemma sign_or_digit_not_comma (c : ascii) :
  sign_or_digit c = true -> Ascii.eqb c "," = false.
Proof.
  intros H. destruct (Ascii.eqb_spec c ","%char) as [->|]; [discriminate | reflexivity].
Qed.

Lemma split_field (a : string) :
  all_sign_or_digit a = true -> PyStr.split ","%char a = [a].
Proof.
  induction a as [|c a IH]; [reflexivity|]. cbn [all_sign_or_digit PyStr.split].
  intros [Hc Ha]%andb_prop. rewrite (sign_or_digit_not_comma c Hc). now rewrite IH.
Qed.

Lemma split_field_comma (a b : string) :
  all_sign_or_digit a = true ->
  PyStr.split ","%char (a +:+ "," +:+ b) = a :: PyStr.split ","%char b.
Proof.
  induction a as [|c a IH]; [reflexivity|]. cbn [all_sign_or_digit].
  intros [Hc Ha]%andb_prop. rewrite string_app_cons. cbn [PyStr.split].
  rewrite (sign_or_digit_not_comma c Hc). now rewrite IH.
Qed.

(** Splitting the written allow-list gives back the decimal forms. *)
Lemma split_join_ids (m : Z) (ms : list Z) :
  PyStr.split ","%char (join_ids (m :: ms)) = map PyStr.str (m :: ms).
Proof.
  revert m. induction ms as [|m' ms IH]; intros m.
  - cbn [join_ids map]. apply split_field, str_chars.
  - change (join_ids (m :: m' :: ms))
      with (PyStr.str m +:+ "," +:+ join_ids (m' :: ms)).
    rewrite split_field_comma by apply str_chars. rewrite IH. reflexivity.
Qed.

Lemma join_ids_not_wildcard (ms : list Z) : join_ids ms <> "*".
Proof.
  destruct ms as [|m ms]; [discriminate|].
  assert (H : exists c r, join_ids (m :: ms) = String c r /\ sign_or_digit c = true).
  { destruct (str_chars m) as [Hc Hne].
    destruct (PyStr.str m) as [|c r] eqn:Hm; [congruence|].
    cbn [all_sign_or_digit] in Hc. apply andb_prop in Hc as [Hc _].
    destruct ms as [|m' ms]; cbn [join_ids]; rewrite Hm; [now exists c, r|].
    rewrite string_app_cons. now eexists c, _. }
  destruct H as (c & r & -> & Hc). intros [= -> _]. discriminate.
Qed.

Lemma str_listed (n : Z) (ms : list Z) :
  PyStr.str n ∈ PyStr.split ","%char (join_ids ms) <-> n ∈ ms.
Proof.
  destruct ms as [|m ms].
  - cbn. split; [|intros H; now apply elem_of_nil in H].
    intros H%list_elem_of_singleton. now destruct (str_chars n).
  - rewrite split_join_ids. split.
    + intros (k & Hk & Hin)%list_elem_of_fmap.
      apply (inj (pretty : Z -> string)) in Hk. now subst.
    + intros Hin. apply list_elem_of_fmap. now exists n.
Qed.

(** X18: an allow-list written as the decimal ids [ms] separated by
    commas admits exactly these ids: a sender whose id is in [ms] is
    allowed at once, in any conversation, and outside a group a sender
    whose id is not in [ms] is denied.  (No id is mistaken for the wildcard
    or for a part of another id.) *)
Theorem allow_list_of_ids_admits_exactly_them (w : world) (config : Config)
    (update : Update) (s : state) (ms : list Z) :
  allowed_user_ids config = join_ids ms ->
  (user_id (from_user (message update)) ∈ ms ->
   is_allowed w config update s = (Ok true, entered s))
  /\ (user_id (from_user (message update)) ∉ ms ->
      is_group_chat update = false ->
      is_allowed w config update s = (Ok false, entered s)).
Proof.
  intros Hcfg. split.
  - intros Hin. apply is_allowed_listed. rewrite Hcfg. now apply str_listed.
  - intros Hnot Hg. apply is_allowed_direct; [| | exact Hg].
    + rewrite Hcfg. apply join_ids_not_wildcard.
    + rewrite Hcfg. now rewrite str_listed.
Qed.

Lemma allow_list_of_ids_admits_exactly_them_witness :
  is_allowed w_quiet cfg_list (text_update alice group_chat "hi") (init ∅)
  = (Ok true, entered (init ∅))
  /\ is_allowed w_quiet cfg_list (text_update mallory direct_chat "hi") (init ∅)
     = (Ok false, entered (init ∅)).
Proof.
  split.
  - apply (allow_list_of_ids_admits_exactly_them w_quiet cfg_list
             (text_update alice group_chat "hi") (init ∅) [42; 99]%Z eq_refl).
    present_by_evaluation.
  - apply (allow_list_of_ids_admits_exactly_them w_quiet cfg_list
             (text_update mallory direct_chat "hi") (init ∅) [42; 99]%Z eq_refl).
    + absent_by_evaluation.
    + reflexivity.
Defined.

(** ** The cost of the group scan *)

Lemma group_scan_queries w update (l : list string) (s : state) :
  exists evs, trace (snd (group_scan w update l s)) = trace s ++ evs
              /\ length (List.filter member_query evs) <= length l.
Proof.
  revert s. induction l as [|user rest IH]; intros s.
  - eexists [_]. split; [reflexivity|]. cbn. lia.
  - rewrite group_scan_cons. cbn zeta.
    destruct (respond w (clock s) _) as [st|e].
    + destruct (bool_decide _).
      * eexists [_; _]. split; [reflexivity|]. cbn. lia.
      * match goal with |- context [group_scan w update rest ?s1] =>
          destruct (IH s1) as (evs & Ht & Hn) end.
        exists (GetMember (chat_id (effective_chat update)) user :: evs).
        rewrite Ht. cbn [trace]. rewrite <- app_assoc. split; [reflexivity|].
        cbn. lia.
    + eexists [_]. split; [reflexivity|]. cbn. lia.
Qed.

Lemma filter_member_query_none (evs : list event) :
  Forall (fun c => member_query c = false) evs -> List.filter member_query evs = [].
Proof. induction 1 as [|c evs Hc _ IH]; [reflexivity|]. cbn. now rewrite Hc. Qed.

(** X19: one event costs at most as many membership queries as the
    allow-list has comma-separated fields, and none at all outside a group;
    the handler bodies never query memberships themselves. *)
Theorem membership_queries_are_bounded (h : guarded) (w : world) (config : Config)
    (update : Update) (files : gset string) :
  length (List.filter member_query
            (trace (snd (handle h w config update (init files)))))
  <= if is_group_chat update
     then length (PyStr.split ","%char (allowed_user_ids config))
     else 0.
Proof.
  assert (Hpol : exists evs,
             trace (snd (is_allowed w config update (init files))) = evs
             /\ length (List.filter member_query evs)
                <= if is_group_chat update
                   then length (PyStr.split ","%char (allowed_user_ids config))
                   else 0).
  { eexists. split; [reflexivity|].
    destruct (String.eqb_spec (allowed_user_ids config) "*") as [Hw|Hw].
    { rewrite is_allowed_open by exact Hw. cbn. lia. }
    destruct (decide (PyStr.str (user_id (from_user (message update)))
                        ∈ PyStr.split ","%char (allowed_user_ids config))) as [Hl|Hl].
    { rewrite is_allowed_listed by exact Hl. cbn. lia. }
    destruct (is_group_chat update) eqn:Hg.
    - rewrite is_allowed_scan by assumption.
      destruct (group_scan_queries w update
                  (PyStr.split ","%char (allowed_user_ids config)) (entered (init files)))
        as (evs & -> & Hn).
      cbn [entered init trace app]. exact Hn.
    - rewrite is_allowed_direct by assumption. cbn. lia. }
  destruct Hpol as (pol & Hpol & Hn).
  destruct (is_allowed w config update (init files)) as [[[]|e] s1] eqn:Hp;
    cbn [snd] in Hpol.
  - destruct (handle_body_events h _ _ _ _ _ Hp) as (rest & -> & Hrest).
    rewrite Hpol, List.filter_app, length_app.
    rewrite (filter_member_query_none rest); [cbn; lia|].
    eapply Forall_impl; [exact Hrest|]. intros c Hc. now destruct c.
  - rewrite (handle_denied _ _ _ _ _ _ Hp). cbn [snd trace].
    rewrite Hpol, List.filter_app, length_app. cbn. lia.
  - rewrite (handle_policy_raises _ _ _ _ _ _ _ Hp). cbn [snd]. now rewrite Hpol.
Qed.

(** ** The scratch files when the removals are carried out *)

(** X20: as long as the operating system carries out the removals,
    [transcribe] leaves no scratch file behind, however it ends (denial,
    unsupported type, transcript sent, a fetch, transcode, transcription or
    send exception, caught or not): no file exists afterwards that did not
    exist before the call, and no path that a download or an export of the
    call wrote to exists afterwards. *)
Theorem transcribe_leaves_no_scratch_file_when_removals_return (w : world)
    (config : Config) (update : Update) (files : gset string) :
  removals_return w ->
  fs (snd (transcribe w config update (init files))) ⊆ files
  /\ forall c p,
       c ∈ trace (snd (transcribe w config update (init files))) ->
       written_path c = Some p ->
       p ∉ fs (snd (transcribe w config update (init files))).
Proof.
  intros Hrem.
  assert (H : stable no_scratch_left (transcribe w config update)).
  { unfold transcribe. stable_steps; try reflexivity.
    all: try (intros p Hp; discriminate).
    all: try (intros p [= <-]; set_solver).
    all: intros p [= <-]; auto. }
  destruct (H (init files)) as [Hfs (evs & Ht & Hw)]. cbn [init fs trace app] in *.
  split; [exact Hfs|]. rewrite Ht. exact Hw.
Qed.

Lemma transcribe_leaves_no_scratch_file_when_removals_return_witness :
  fs (snd (transcribe w_export_fails cfg_open (media_update (Some voice_abc) None)
             (init {["notes.txt"]}))) ⊆ {["notes.txt"]}
  /\ forall c p,
       c ∈ trace (snd (transcribe w_export_fails cfg_open
                         (media_update (Some voice_abc) None) (init {["notes.txt"]}))) ->
       written_path c = Some p ->
       p ∉ fs (snd (transcribe w_export_fails cfg_open
                      (media_update (Some voice_abc) None) (init {["notes.txt"]}))).
Proof.
  apply (transcribe_leaves_no_scratch_file_when_removals_return w_export_fails cfg_open
           (media_update (Some voice_abc) None) {["notes.txt"]}).
  intros n p. now exists "ok".
Defined.
